(** * MQA_identifier: a shallow embedding of the detector and of the batch driver

    The development follows the C++ sources:
    - [mqa_identifier.h]: [OriginalSampleRateDecoder], the FLAC decoder
      callbacks of [MQA_identifier::MyDecoder] and [MQA_identifier::detect];
    - [main.cc]: [log_skip], [log_message], [tagFile], [processFile] and the
      file loop of [main].

    Fixed-width unsigned integers are integers of [Z] with the wrap-around
    written out; C++ exceptions are values of [exn] threaded through a
    result type; reads through a pointer that leaves its vector are an
    explicit [Undefined] outcome. *)

From Stdlib Require Import ZArith List String Ascii Bool Lia Arith.
From Stdlib Require Import DecimalString.
Import ListNotations.
Open Scope Z_scope.

(** ** Machine integers *)

Definition u32 (z : Z) : Z := z mod 2 ^ 32.
Definition u8 (z : Z) : Z := z mod 2 ^ 8.

Definition is_u32 (z : Z) : Prop := 0 <= z < 2 ^ 32.

(** [std::to_string] on an unsigned value. *)
Definition to_string (z : Z) : string :=
  NilZero.string_of_uint (N.to_uint (Z.to_N z)).

(** ** Exceptions *)

(** Every handler of the program distinguishes only [std::exception] (through
    [what()]) from anything else. *)
Inductive exn : Type :=
| StdException (what : string)
| UnknownException.

Inductive result (A : Type) : Type :=
| Ok (a : A)
| Raise (e : exn).
Arguments Ok {A} a.
Arguments Raise {A} e.

(** ** RateCodec: [OriginalSampleRateDecoder] *)

Definition bit_at (c : Z) (n : Z) : Z := Z.land (Z.shiftr c n) 1.

Definition OriginalSampleRateDecoder (c : Z) : result Z :=
  if 15 <? c then Raise (StdException "Invalid bytecode")
  else
    let base := if Z.land c 1 =? 0 then 44100 else 48000 in
    let multiplier :=
      u32 (Z.shiftl 1
             (Z.lor (Z.lor (bit_at c 3) (Z.shiftl (bit_at c 2) 1))
                    (Z.shiftl (bit_at c 1) 2))) in
    let multiplier := if 16 <? multiplier then u32 (multiplier * 2) else multiplier in
    Ok (u32 (base * multiplier)).

(** The decoding rule in the words of the specification. *)
Definition rate_base (code : Z) : Z :=
  if Z.testbit code 0 then 48000 else 44100.

Definition rate_exponent (code : Z) : Z :=
  Z.lor (Z.lor (Z.b2z (Z.testbit code 3)) (Z.shiftl (Z.b2z (Z.testbit code 2)) 1))
        (Z.shiftl (Z.b2z (Z.testbit code 1)) 2).

Definition rate_multiplier (code : Z) : Z :=
  let m := 2 ^ rate_exponent code in
  if 16 <? m then 2 * m else m.

(** ** Outcomes of stateful code

    A member function either returns a value, leaves through an exception,
    or has undefined behaviour; in the first two cases the object state it
    reached is kept. *)

Inductive outcome (S A : Type) : Type :=
| Returns (a : A) (s : S)
| Throwing (e : exn) (s : S)
| Undefined.
Arguments Returns {S A} a s.
Arguments Throwing {S A} e s.
Arguments Undefined {S A}.

Definition is_empty (s : string) : bool :=
  match s with
  | EmptyString => true
  | String _ _ => false
  end.

(** ** The decoder object: [MQA_identifier::MyDecoder] *)

(** [std::array<const FLAC__int32, 2>]: the left and the right sample. *)
Definition sample : Type := (Z * Z)%type.

Record Decoder : Type := mkDecoder {
  sample_rate : Z;
  channels : Z;
  bps : Z;
  decoded_samples : Z;
  samples : list sample;
  mqa_encoder : string;
  original_sample_rate : Z;
  error_message : string;
  (** [get_state() == FLAC__STREAM_DECODER_END_OF_STREAM] *)
  end_of_stream : bool
}.

Definition new_decoder : Decoder :=
  mkDecoder 0 0 0 0 [] "" 0 "" false.

Definition set_error_message (msg : string) (d : Decoder) : Decoder :=
  mkDecoder (sample_rate d) (channels d) (bps d) (decoded_samples d) (samples d)
            (mqa_encoder d) (original_sample_rate d) msg (end_of_stream d).

Definition set_original_sample_rate (r : Z) (d : Decoder) : Decoder :=
  mkDecoder (sample_rate d) (channels d) (bps d) (decoded_samples d) (samples d)
            (mqa_encoder d) r (error_message d) (end_of_stream d).

Definition set_end_of_stream (d : Decoder) : Decoder :=
  mkDecoder (sample_rate d) (channels d) (bps d) (decoded_samples d) (samples d)
            (mqa_encoder d) (original_sample_rate d) (error_message d) true.

(** What the FLAC library finds in a file: the outcome of [init], the metadata
    blocks handed to [metadata_callback], and what each later call of
    [process_single] does. *)
Inductive metadata : Type :=
| StreamInfo (rate chans bits : Z)
| VorbisComment (comments : list string)
| OtherMetadata.

Inductive decode_step : Type :=
| Frame (block : list sample)
| StreamError (status : string) (ok : bool)
| Throws (e : exn).

Record FlacFile : Type := mkFlacFile {
  init_failure : option string;
  file_metadata : list metadata;
  file_steps : list decode_step;
  state_string : string
}.

(** [channels != 2 || (bps != 16 && bps != 24)] *)
Definition unsupported_format (d : Decoder) : bool :=
  negb (channels d =? 2) || (negb (bps d =? 16) && negb (bps d =? 24)).

Inductive write_status : Type :=
| WRITE_STATUS_CONTINUE
| WRITE_STATUS_ABORT.

Definition write_callback (block : list sample) (d : Decoder) : write_status * Decoder :=
  if unsupported_format d then
    (WRITE_STATUS_ABORT,
     set_error_message
       ("Unsupported Audio Format: " ++ to_string (channels d) ++ " channels, "
          ++ to_string (bps d) ++ " bits")%string d)
  else
    (WRITE_STATUS_CONTINUE,
     mkDecoder (sample_rate d) (channels d) (bps d)
               (decoded_samples d + Z.of_nat (List.length block))
               (samples d ++ block)
               (mqa_encoder d) (original_sample_rate d) (error_message d)
               (end_of_stream d)).

Definition comment_encoder (enc : string) (comment : string) : string :=
  if String.eqb (substring 0 10 comment) "MQAENCODER"
  then substring 10 (String.length comment - 10) comment
  else enc.

Definition metadata_callback (m : metadata) (d : Decoder) : Decoder :=
  match m with
  | StreamInfo rate chans bits =>
      mkDecoder rate chans bits (decoded_samples d) (samples d) (mqa_encoder d)
                (original_sample_rate d) (error_message d) (end_of_stream d)
  | VorbisComment comments =>
      mkDecoder (sample_rate d) (channels d) (bps d) (decoded_samples d) (samples d)
                (fold_left comment_encoder comments (mqa_encoder d))
                (original_sample_rate d) (error_message d) (end_of_stream d)
  | OtherMetadata => d
  end.

Definition error_callback (status : string) (d : Decoder) : Decoder :=
  set_error_message (error_message d ++ "FLAC Error: " ++ status ++ "; ")%string d.

(** One call of [process_single] on the next step of the file. *)
Definition process_single (st : decode_step) (d : Decoder) : outcome Decoder bool :=
  match st with
  | Frame block =>
      match write_callback block d with
      | (WRITE_STATUS_CONTINUE, d') => Returns true d'
      | (WRITE_STATUS_ABORT, d') => Returns false d'
      end
  | StreamError status ok => Returns ok (error_callback status d)
  | Throws e => Throwing e d
  end.

(** [this->sample_rate * 3], computed in 32 bits. *)
Definition three_seconds (d : Decoder) : Z := u32 (sample_rate d * 3).

(** The reading loop of [decode]: past the last step the library reports the
    end of the stream. *)
Fixpoint decode_loop (steps : list decode_step) (ok : bool) (d : Decoder)
  : outcome Decoder bool :=
  if (decoded_samples d <? three_seconds d)
     && is_empty (error_message d) && negb (end_of_stream d)
  then
    match steps with
    | [] => Returns true (set_end_of_stream d)
    | st :: rest =>
        match process_single st d with
        | Returns ok' d' => decode_loop rest ok' d'
        | Throwing e d' => Throwing e d'
        | Undefined => Undefined
        end
    end
  else Returns ok d.

(** [init] followed by [process_until_end_of_metadata]: a decoder that failed
    to initialise delivers no metadata. *)
Definition decode_init (f : FlacFile) (d : Decoder) : bool * Decoder :=
  match init_failure f with
  | Some status =>
      (false, set_error_message ("Initializing decoder failed: " ++ status)%string d)
  | None => (true, fold_left (fun d m => metadata_callback m d) (file_metadata f) d)
  end.

Definition decode (f : FlacFile) (d : Decoder) : outcome Decoder unit :=
  let '(ok, d) := decode_init f d in
  match decode_loop (file_steps f) ok d with
  | Returns ok d =>
      if negb ok && is_empty (error_message d)
      then Returns tt (set_error_message ("Decoding failed: " ++ state_string f)%string d)
      else Returns tt d
  | Throwing e d => Throwing e d
  | Undefined => Undefined
  end.

(** ** BitPlaneScanner: the scanning loop of [detect] *)

Definition MAGIC : Z := 0xbe0498c88.
Definition MASK36 : Z := 0xFFFFFFFFF.

(** [static_cast<uint32_t>(s[0]) ^ static_cast<uint32_t>(s[1])] *)
Definition xor_diff (s : sample) : Z := Z.lxor (u32 (fst s)) (u32 (snd s)).

(** [(... >> (pos + k)) & 1u]; the format guard of [write_callback] keeps
    [pos + k] below 11 whenever a sample exists. *)
Definition plane_bit (pos k : Z) (s : sample) : Z :=
  Z.land (Z.shiftr (xor_diff s) (u32 (pos + k))) 1.

Definition shift36 (buffer : Z) : Z := Z.land (Z.shiftl buffer 1) MASK36.

(** The branch of the loop that returned: which register matched, and the
    index of the sample [s] at which it did. *)
Inductive scan_result : Type :=
| NoMatch
| Match (offset : Z) (index : nat).

Fixpoint scan_from (pos : Z) (rest : list sample) (i : nat)
         (buffer buffer1 buffer2 : Z) : scan_result :=
  match rest with
  | [] => NoMatch
  | s :: rest' =>
      let buffer := Z.lor buffer (plane_bit pos 0 s) in
      let buffer1 := Z.lor buffer1 (plane_bit pos 1 s) in
      let buffer2 := Z.lor buffer2 (plane_bit pos 2 s) in
      if buffer =? MAGIC then Match 0 i
      else if buffer1 =? MAGIC then Match 1 i
      else if buffer2 =? MAGIC then Match 2 i
      else scan_from pos rest' (S i) (shift36 buffer) (shift36 buffer1) (shift36 buffer2)
  end.

Definition scan (pos : Z) (l : list sample) : scan_result :=
  scan_from pos l 0 0 0 0.

(** The payload loops: [cur = *(&s + m)] for each [m] of [ms], the bit of
    [cur] going to position [top - m] of a [uint8_t].  Nothing checks that
    [&s + m] is still inside the vector. *)
Fixpoint read_field (pos k : Z) (l : list sample) (i : nat) (ms : list nat)
         (top : nat) (acc : Z) : option Z :=
  match ms with
  | [] => Some acc
  | m :: ms' =>
      match nth_error l (i + m) with
      | None => None
      | Some cur =>
          let j := plane_bit pos k cur in
          read_field pos k l i ms' top
                     (u8 (Z.lor acc (Z.shiftl j (Z.of_nat (top - m)))))
      end
  end.

Definition read_orsf (pos k : Z) (l : list sample) (i : nat) : option Z :=
  read_field pos k l i [3; 4; 5; 6]%nat 6 0.

Definition read_provenance (pos k : Z) (l : list sample) (i : nat) : option Z :=
  read_field pos k l i [29; 30; 31; 32; 33]%nat 33 0.

(** ** The detector object: [MQA_identifier] *)

Record Identifier : Type := mkIdentifier {
  decoder : Decoder;
  isMQA_ : bool;
  isMQAStudio_ : bool;
  error_message_ : string
}.

Definition new_identifier : Identifier :=
  mkIdentifier new_decoder false false "".

Definition originalSampleRate (id : Identifier) : Z :=
  original_sample_rate (decoder id).
Definition isMQA (id : Identifier) : bool := isMQA_ id.
Definition isMQAStudio (id : Identifier) : bool := isMQAStudio_ id.
Definition getErrorMessage (id : Identifier) : string := error_message_ id.

(** The block guarded by [try] in [detect]. *)
Definition detect_body (f : FlacFile) (id : Identifier) : outcome Identifier bool :=
  match decode f (decoder id) with
  | Undefined => Undefined
  | Throwing e d =>
      Throwing e (mkIdentifier d (isMQA_ id) (isMQAStudio_ id) (error_message_ id))
  | Returns _ d =>
      if negb (is_empty (error_message d)) then
        Returns false (mkIdentifier d (isMQA_ id) (isMQAStudio_ id) (error_message d))
      else
        let pos := u32 (bps d - 16) in
        match scan pos (samples d) with
        | NoMatch =>
            Returns false (mkIdentifier d (isMQA_ id) (isMQAStudio_ id) (error_message_ id))
        | Match k i =>
            match read_orsf pos k (samples d) i with
            | None => Undefined
            | Some orsf =>
                match OriginalSampleRateDecoder orsf with
                | Raise e =>
                    Throwing e (mkIdentifier d true (isMQAStudio_ id) (error_message_ id))
                | Ok rate =>
                    let d := set_original_sample_rate rate d in
                    match read_provenance pos k (samples d) i with
                    | None => Undefined
                    | Some provenance =>
                        Returns true
                          (mkIdentifier d true (8 <? provenance) (error_message_ id))
                    end
                end
            end
        end
  end.

(** [detect]: the two handlers turn every exception into a [false] return. *)
Definition detect (f : FlacFile) (id : Identifier) : outcome Identifier bool :=
  match detect_body f id with
  | Throwing (StdException what) id' =>
      Returns false
        (mkIdentifier (decoder id') (isMQA_ id') (isMQAStudio_ id')
                      ("Exception: " ++ what)%string)
  | Throwing UnknownException id' =>
      Returns false
        (mkIdentifier (decoder id') (isMQA_ id') (isMQAStudio_ id')
                      "Unknown exception during detection")
  | r => r
  end.

(** *** Synthetic streams *)

(** The 36 bits of the synchronization word, first arrived first, written on
    bit [shift] of the left channel; the right channel is silent. *)
Definition sync_samples (shift : Z) : list sample :=
  map (fun j => (Z.shiftl (Z.b2z (Z.testbit MAGIC (Z.of_nat (35 - j)))) shift, 0))
      (seq 0 36).

Definition silence (n : nat) : list sample := repeat (0, 0) n.

Definition stereo_file (rate bits : Z) (frames : list (list sample)) : FlacFile :=
  mkFlacFile None [StreamInfo rate 2 bits] (map Frame frames) "".


(** ** The vocabulary of the properties *)

(** The three bit offsets tested above the base position. *)
Definition offset (k : Z) : Prop := k = 0 \/ k = 1 \/ k = 2.

(** The synchronization word lies in bit-plane [k] with its 36th bit on the
    sample of index [i]: for every [j] below 36 the sample [i - j] exists and
    its bit of plane [k] is bit [j] of the constant. *)
Definition sync_atb (pos k : Z) (l : list sample) (i : nat) : bool :=
  forallb
    (fun j =>
       (j <=? i)%nat &&
       match nth_error l (i - j) with
       | Some s => plane_bit pos k s =? Z.b2z (Z.testbit MAGIC (Z.of_nat j))
       | None => false
       end)
    (seq 0 36).

Definition sync_at (pos k : Z) (l : list sample) (i : nat) : Prop :=
  sync_atb pos k l i = true.

(** What a register holds when the loop has consumed the bits [bs] of its
    plane, oldest first, before the next bit is or-ed in. *)
Definition shifted (bs : list Z) : Z :=
  fold_left (fun r b => shift36 (Z.lor r b)) bs 0.

(** What a result of the scanning loop, started at index [from], says about
    the stream [l]. *)
Definition scan_post (pos : Z) (l : list sample) (from : nat) (r : scan_result) : Prop :=
  match r with
  | NoMatch =>
      forall i k, (from <= i)%nat -> offset k -> sync_atb pos k l i = false
  | Match k i =>
      (from <= i < List.length l)%nat /\ offset k /\
      sync_atb pos k l i = true /\
      (forall i' k', (from <= i' < i)%nat -> offset k' -> sync_atb pos k' l i' = false) /\
      (forall k', offset k' -> k' < k -> sync_atb pos k' l i = false)
  end.

(** The decoder as [decode] finds it once the metadata has been read. *)
Definition stream_format (f : FlacFile) : Decoder :=
  snd (decode_init f new_decoder).

(** The object state in which a call ended, when it has one. *)
Definition final_state {S A : Type} (o : outcome S A) : option S :=
  match o with
  | Returns _ s => Some s
  | Throwing _ s => Some s
  | Undefined => None
  end.

Definition block_of (st : decode_step) : list sample :=
  match st with
  | Frame block => block
  | _ => []
  end.

(** The largest block size among the frames of a file. *)
Definition max_block (steps : list decode_step) : Z :=
  fold_right (fun st m => Z.max (Z.of_nat (List.length (block_of st))) m) 0 steps.

(** All the samples of a file, in stream order. *)
Definition all_samples (steps : list decode_step) : list sample :=
  flat_map block_of steps.

Definition is_frame (st : decode_step) : bool :=
  match st with
  | Frame _ => true
  | _ => false
  end.

(** A file of 8 kHz stereo silence in six blocks of 4096 samples. *)
Definition six_blocks_8k : FlacFile :=
  stereo_file 8000 16 (repeat (silence 4096) 6).

(** A mono file without any audio frame. *)
Definition mono_no_audio : FlacFile :=
  mkFlacFile None [StreamInfo 44100 1 16] [] "".

(** A stereo file that ends ten samples after the synchronization word. *)
Definition truncated_after_sync : FlacFile :=
  stereo_file 44100 16 [sync_samples 0 ++ silence 10].

(** A value that is a single bit. *)
Definition bit01 (b : Z) : Prop := b = 0 \/ b = 1.

(** What the loop keeps about the amount of stored audio. *)
Definition bounded_store (rate : Z) (B : Z) (d : Decoder) : Prop :=
  sample_rate d = rate /\
  decoded_samples d = Z.of_nat (List.length (samples d)) /\
  (samples d = [] \/
   Z.of_nat (List.length (samples d)) <= u32 (rate * 3) - 1 + B).

(** Under an unsupported format no step stores a sample. *)
Definition rejecting (l : list sample) (d : Decoder) : Prop :=
  unsupported_format d = true /\ samples d = l.

(** The message of the format guard. *)
Definition unsupported_message (d : Decoder) : string :=
  ("Unsupported Audio Format: " ++ to_string (channels d) ++ " channels, "
     ++ to_string (bps d) ++ " bits")%string.

(** A finite check that a stream carries no synchronization word. *)
Definition no_sync_in (pos : Z) (l : list sample) : bool :=
  forallb (fun i => negb (sync_atb pos 0 l i) && negb (sync_atb pos 1 l i)
                    && negb (sync_atb pos 2 l i))
          (seq 0 (List.length l)).

(** * The batch driver: [main.cc]

    The text written to the console and to the debug stream is not part of
    the model; every other effect of [tagFile], [processFile] and the file
    loop is: the two counters, the error ledger, the detailed log and the
    metadata chains of the files on disk. *)

(** ** Metadata chains ([FLAC::Metadata]) *)

(** A Vorbis comment entry: field name and field value. *)
Definition entry : Type := (string * string)%type.

(** The blocks that follow the mandatory STREAMINFO block of a file: a
    Vorbis comment block with its entries, a block of another type, or a
    PADDING block with the number of its bytes. *)
Inductive block : Type :=
| VORBIS_COMMENT (comments : list entry)
| OTHER_BLOCK (type : Z)
| PADDING (length : Z).

Definition upper (c : ascii) : ascii :=
  let n := nat_of_ascii c in
  if ((97 <=? n) && (n <=? 122))%nat then ascii_of_nat (n - 32) else c.

Fixpoint upper_string (s : string) : string :=
  match s with
  | EmptyString => EmptyString
  | String c s' => String (upper c) (upper_string s')
  end.

(** The library compares field names without regard to ASCII case. *)
Definition field_matches (name : string) (e : entry) : bool :=
  String.eqb (upper_string (fst e)) (upper_string name).

Fixpoint find_from (name : string) (comments : list entry) (index : Z) : Z :=
  match comments with
  | [] => -1
  | e :: rest =>
      if field_matches name e then index else find_from name rest (index + 1)
  end.

(** [find_entry_from(offset, name)]: the index of the first matching entry
    at or after [offset], or -1. *)
Definition find_entry_from (offset : nat) (name : string) (comments : list entry) : Z :=
  find_from name (skipn offset comments) (Z.of_nat offset).

(** The iterator loop of [tagFile]: the first Vorbis comment block. *)
Fixpoint find_vorbis (blocks : list block) : option (list entry) :=
  match blocks with
  | [] => None
  | VORBIS_COMMENT comments :: _ => Some comments
  | OTHER_BLOCK _ :: rest => find_vorbis rest
  | PADDING _ :: rest => find_vorbis rest
  end.

(** The block found by the iterator is modified in place. *)
Fixpoint set_vorbis (comments : list entry) (blocks : list block) : list block :=
  match blocks with
  | [] => []
  | VORBIS_COMMENT _ :: rest => VORBIS_COMMENT comments :: rest
  | OTHER_BLOCK t :: rest => OTHER_BLOCK t :: set_vorbis comments rest
  | PADDING n :: rest => PADDING n :: set_vorbis comments rest
  end.

Definition MQAENCODER_value : string :=
  "MQAEncode v1.1, 2.3.3+800 (a505918), F8EC1703-7616-45E5-B81E-D60821434062, Dec 01 2017 22:19:30".

(** The two checks of [tagFile] on the comment block: the entries after them
    and the [modified] flag. *)
Definition ensure_tags (original_rate : Z) (comments : list entry)
  : list entry * bool :=
  let modified := false in
  let '(comments, modified) :=
    if find_entry_from 0 "MQAENCODER" comments =? -1
    then (comments ++ [("MQAENCODER"%string, MQAENCODER_value)], true)
    else (comments, modified) in
  if (0 <? original_rate)
     && (find_entry_from 0 "ORIGINALSAMPLERATE" comments =? -1)
  then (comments ++ [("ORIGINALSAMPLERATE"%string, to_string original_rate)], true)
  else (comments, modified).

(** ** What [chain.write()] stores

    [tagFile] calls [write] without arguments, that is with
    [use_padding = true]: the library compares the length of the chain with
    the length it had when it was read and makes up for the difference with
    padding at the end of the chain, where it can, so that the audio behind
    the metadata need not be moved. *)

(** [FLAC__STREAM_METADATA_HEADER_LENGTH] *)
Definition HEADER_LENGTH : Z := 4.

(** An entry is stored as a 32-bit length and the text NAME=value. *)
Definition entry_length (e : entry) : Z :=
  4 + Z.of_nat (String.length (fst e)) + 1 + Z.of_nat (String.length (snd e)).

Definition entries_length (comments : list entry) : Z :=
  fold_right (fun e n => entry_length e + n) 0 comments.

(** The bytes of a block behind its header.  A comment block holds the
    length of its vendor string, the number of its entries and the entries;
    the vendor string itself and the data of the blocks of other types are
    not in the model and count as empty: [tagFile] leaves them alone, and
    only the difference of two lengths is ever used.  (A comment block that
    [tagFile] creates brings its vendor string with it, but it is the last
    block of the chain, and a chain that has grown is changed by [write]
    only where it ends in a PADDING block.) *)
Definition block_length (b : block) : Z :=
  match b with
  | VORBIS_COMMENT comments => 4 + 4 + entries_length comments
  | OTHER_BLOCK _ => 0
  | PADDING length => length
  end.

Definition chain_length (blocks : list block) : Z :=
  fold_right (fun b n => HEADER_LENGTH + block_length b + n) 0 blocks.

(** The length of the PADDING block at the tail of the chain, if the tail is
    one. *)
Definition tail_padding (blocks : list block) : option Z :=
  match rev blocks with
  | PADDING length :: _ => Some length
  | _ => None
  end.

(** The chain as [write(use_padding = true)] stores it.  A chain that has
    shrunk gets its last PADDING block extended, or a new PADDING block where
    there is room for its header.  A chain that has grown and ends in a
    PADDING block loses that block when the block and its header are exactly
    the bytes gained, and has it cut down by the bytes gained when it holds
    that many; otherwise the chain is stored as it is and the file is
    rewritten. *)
Definition prepare_for_write (initial_length : Z) (blocks : list block) : list block :=
  let current_length := chain_length blocks in
  match tail_padding blocks with
  | Some length =>
      if current_length <? initial_length then
        removelast blocks ++ [PADDING (length + (initial_length - current_length))]
      else if initial_length <? current_length then
        let delta := current_length - initial_length in
        if length + HEADER_LENGTH =? delta then removelast blocks
        else if delta <=? length then removelast blocks ++ [PADDING (length - delta)]
        else blocks
      else blocks
  | None =>
      if current_length + HEADER_LENGTH <=? initial_length then
        blocks ++ [PADDING (initial_length - (HEADER_LENGTH + current_length))]
      else blocks
  end.

(** ** Global state *)

(** [std::atomic<size_t>::operator++] *)
Definition size_t_succ (n : Z) : Z := (n + 1) mod 2 ^ 64.

(** [std::map<std::string, std::vector<std::string>>] *)
Definition ledger : Type := list (string * list string).

Fixpoint ledger_get (reason : string) (l : ledger) : list string :=
  match l with
  | [] => []
  | (r, paths) :: rest => if String.eqb r reason then paths else ledger_get reason rest
  end.

(** [scan_errors[reason].push_back(path)] *)
Fixpoint ledger_push (reason path : string) (l : ledger) : ledger :=
  match l with
  | [] => [(reason, [path])]
  | (r, paths) :: rest =>
      if String.eqb r reason then (r, paths ++ [path]) :: rest
      else (r, paths) :: ledger_push reason path rest
  end.

(** The metadata chains of the files on disk, by path. *)
Definition disk_files : Type := list (string * list block).

Fixpoint disk_get (file : string) (d : disk_files) : option (list block) :=
  match d with
  | [] => None
  | (p, blocks) :: rest => if String.eqb p file then Some blocks else disk_get file rest
  end.

Fixpoint disk_put (file : string) (blocks : list block) (d : disk_files) : disk_files :=
  match d with
  | [] => [(file, blocks)]
  | (p, old) :: rest =>
      if String.eqb p file then (p, blocks) :: rest
      else (p, old) :: disk_put file blocks rest
  end.

Record State : Type := mkState {
  scanned_count : Z;
  mqa_count : Z;
  scan_errors : ledger;
  detailed_log : list string;
  disk : disk_files
}.

Definition initial_state (d : disk_files) : State := mkState 0 0 [] [] d.

(** The two flags set from the command line. *)
Record Config : Type := mkConfig {
  verbose_logging : bool;
  dry_run : bool
}.

(** The places of the driver at which a library call can fail or an
    exception (an allocation failure, say) can start.  [LoopFilename] is the
    call [file.filename().string()] in the file loop of [main], ahead of
    [processFile]. *)
Inductive site : Type :=
| LogBadHeader | LogInvalid | Construct | LogCreate | LogDetect
| LogDryRun | ChainRead | LogChainRead | NewBlock | InsertBlock | LogInsert
| ChainWrite | LogWrite | LogTagged | LogTagError
| LogMQA | LogError | LogNotMQA | LogException
| LoopFilename.

Record Env : Type := mkEnv {
  fails : site -> bool;
  throws : site -> option exn
}.

(** Nothing fails and nothing throws. *)
Definition calm : Env := mkEnv (fun _ => false) (fun _ => None).

(** What [processFile] is given: the path, whether the file opens, its
    leading bytes, and what the FLAC decoder finds in it. *)
Record Task : Type := mkTask {
  path : string;
  openable : bool;
  leading_bytes : string;
  stream : FlacFile
}.

(** ** Computations over the global state *)

Definition M (A : Type) : Type := State -> outcome State A.

Definition ret {A : Type} (a : A) : M A := fun s => Returns a s.

Definition bind {A B : Type} (m : M A) (k : A -> M B) : M B :=
  fun s =>
    match m s with
    | Returns a s' => k a s'
    | Throwing e s' => Throwing e s'
    | Undefined => Undefined
    end.

Definition throw {A : Type} (e : exn) : M A := fun s => Throwing e s.

Definition modify (f : State -> State) : M unit := fun s => Returns tt (f s).

(** [try { m } catch (const std::exception &e) { std_handler(e.what()) }
    catch (...) { any_handler }] *)
Definition try_catch {A : Type} (m : M A) (std_handler : string -> M A)
           (any_handler : M A) : M A :=
  fun s =>
    match m s with
    | Throwing (StdException what) s' => std_handler what s'
    | Throwing UnknownException s' => any_handler s'
    | r => r
    end.

(** [try { m } catch (const std::exception &e) { std_handler(e.what()) }] *)
Definition try_std {A : Type} (m : M A) (std_handler : string -> M A) : M A :=
  try_catch m std_handler (throw UnknownException).

(** [try { m } catch (...) {}] *)
Definition swallow (m : M unit) : M unit :=
  try_catch m (fun _ => ret tt) (ret tt).

Declare Scope monad_scope.
Delimit Scope monad_scope with monad.
Notation "x <- m ;; k" := (bind m (fun x => k))
  (at level 61, m at next level, right associativity) : monad_scope.
Notation "m ;; k" := (bind m (fun _ => k))
  (at level 61, right associativity) : monad_scope.
Open Scope monad_scope.

Definition incr_scanned : M unit :=
  modify (fun s => mkState (size_t_succ (scanned_count s)) (mqa_count s)
                           (scan_errors s) (detailed_log s) (disk s)).

Definition incr_mqa : M unit :=
  modify (fun s => mkState (scanned_count s) (size_t_succ (mqa_count s))
                           (scan_errors s) (detailed_log s) (disk s)).

(** [chain.write()] on a chain that was [initial_length] bytes long when it
    was read. *)
Definition chain_write (file : string) (initial_length : Z) (blocks : list block)
  : M unit :=
  modify (fun s => mkState (scanned_count s) (mqa_count s) (scan_errors s)
                           (detailed_log s)
                           (disk_put file (prepare_for_write initial_length blocks)
                                     (disk s))).


(** [getSampleRateString]: for rates up to 768000 the stream prints
    [fs / 1000.] with six significant digits, which is the exact decimal
    quotient without trailing zeros. *)
Definition thousandths (fs : Z) : string :=
  let q := fs / 1000 in
  let r := fs mod 1000 in
  if r =? 0 then to_string q
  else if r mod 100 =? 0 then (to_string q ++ "." ++ to_string (r / 100))%string
  else if r mod 10 =? 0 then
    (to_string q ++ "." ++ to_string (r / 100) ++ to_string (r / 10 mod 10))%string
  else (to_string q ++ "." ++ to_string (r / 100) ++ to_string (r / 10 mod 10)
          ++ to_string (r mod 10))%string.

Definition getSampleRateString (fs : Z) : string :=
  if fs <=? 768000 then (thousandths fs ++ "K")%string
  else if fs mod 44100 =? 0 then ("DSD" ++ to_string (fs / 44100))%string
  else ("DSD" ++ to_string (fs / 48000) ++ "x48")%string.

Section Driver.

Variable cfg : Config.
Variable env : Env.

(** An exception starting at place [at_]. *)
Definition raising (at_ : site) : M unit :=
  fun s =>
    match throws env at_ with
    | Some e => Throwing e s
    | None => Returns tt s
    end.

Definition log_message (at_ : site) (msg : string) : M unit :=
  raising at_ ;;
  if negb (verbose_logging cfg) then ret tt
  else modify (fun s => mkState (scanned_count s) (mqa_count s) (scan_errors s)
                                (detailed_log s ++ [msg]) (disk s)).

Definition log_skip (at_ : site) (file reason : string) : M unit :=
  raising at_ ;;
  modify (fun s =>
            mkState (scanned_count s) (mqa_count s)
                    (ledger_push reason file (scan_errors s))
                    (if verbose_logging cfg
                     then detailed_log s ++ [("[ERROR] " ++ file ++ ": " ++ reason)%string]
                     else detailed_log s)
                    (disk s)).

(** [chain.read(path)]: the chain of the file, unless the read fails. *)
Definition chain_read (file : string) : M (option (list block)) :=
  raising ChainRead ;;
  fun s =>
    Returns (if fails env ChainRead then None else disk_get file (disk s)) s.

(** The comment block the tags go to: the first of the chain, or a new one
    inserted after the last block. *)
Definition comment_block (file : string) (blocks : list block)
  : M (option (list block * list entry)) :=
  match find_vorbis blocks with
  | Some comments => ret (Some (blocks, comments))
  | None =>
      raising NewBlock ;;
      if fails env InsertBlock then
        log_skip LogInsert file "Failed to create new VorbisComment block" ;;
        ret None
      else ret (Some (blocks ++ [VORBIS_COMMENT []], []))
  end.

Definition tagFile (file : string) (original_rate : Z) : M unit :=
  if dry_run cfg then
    log_message LogDryRun ("[DRY RUN] Would tag " ++ file)
  else
    try_catch
      (chain <- chain_read file ;;
       match chain with
       | None => log_skip LogChainRead file "Failed to read metadata chain"
       | Some blocks =>
           let initial_length := chain_length blocks in
           found <- comment_block file blocks ;;
           match found with
           | None => ret tt
           | Some (blocks, comments) =>
               let '(comments, modified) := ensure_tags original_rate comments in
               if modified then
                 if fails env ChainWrite then
                   log_skip LogWrite file "Failed to write metadata changes"
                 else
                   chain_write file initial_length (set_vorbis comments blocks) ;;
                   log_message LogTagged ("[TAGGED] " ++ file)
               else ret tt
           end
       end)
      (fun what => log_skip LogTagError file ("Tagging error: " ++ what))
      (log_skip LogTagError file "Unknown tagging error").

(** The header check of [processFile]: [true] when the file goes on to the
    detector, [false] when [processFile] has returned. *)
Definition validate_header (t : Task) (filename_str : string) : M bool :=
  try_std
    (if negb (openable t) then throw (StdException "Cannot open file")
     else
       let flac_header := substring 0 4 (leading_bytes t) in
       if negb (String.length flac_header =? 4)%nat
       then throw (StdException "File too small or unreadable")
       else if negb (String.eqb flac_header "fLaC") then
         log_skip LogBadHeader filename_str "Not a valid FLAC file" ;;
         incr_scanned ;;
         ret false
       else ret true)
    (fun what =>
       log_skip LogInvalid filename_str ("Invalid FLAC: " ++ what) ;;
       incr_scanned ;;
       ret false).

(** [new MQA_identifier(file)] with its two handlers. *)
Definition create_identifier (filename_str : string) : M (option Identifier) :=
  try_catch
    (raising Construct ;; ret (Some new_identifier))
    (fun what =>
       log_skip LogCreate filename_str ("Failed to create decoder: " ++ what) ;;
       incr_scanned ;;
       ret None)
    (log_skip LogCreate filename_str "Failed to create decoder" ;;
     incr_scanned ;;
     ret None).

(** A call of [detect] seen from the driver. *)
Definition call_detect (f : FlacFile) (id : Identifier) : M (bool * Identifier) :=
  fun s =>
    match detect f id with
    | Returns detected id' => Returns (detected, id') s
    | Throwing e _ => Throwing e s
    | Undefined => Undefined
    end.

(** [id_ptr->detect()] with its two handlers. *)
Definition guarded_detect (t : Task) (filename_str : string) (id : Identifier)
  : M (option (bool * Identifier)) :=
  try_catch
    (r <- call_detect (stream t) id ;; ret (Some r))
    (fun what =>
       log_skip LogDetect filename_str ("detect() failed: " ++ what) ;;
       incr_scanned ;;
       ret None)
    (log_skip LogDetect filename_str "detect() crashed - possible file corruption" ;;
     incr_scanned ;;
     ret None).

Definition report (t : Task) (detected : bool) (id : Identifier) : M unit :=
  if detected then
    (if negb (originalSampleRate id =? 0)
     then tagFile (path t) (originalSampleRate id)
     else tagFile (path t) 0) ;;
    incr_mqa ;;
    let extra_info :=
      ((if isMQAStudio id then "Studio " else "")
         ++ getSampleRateString (originalSampleRate id))%string in
    log_message LogMQA ("[MQA] " ++ path t ++ " (" ++ extra_info ++ ")")
  else
    let err := getErrorMessage id in
    if negb (is_empty err) then log_skip LogError (path t) err
    else log_message LogNotMQA ("[NOT MQA] " ++ path t).

(** The block guarded by the outer [try] of [processFile]. *)
Definition processFile_body (t : Task) (filename_str : string) : M unit :=
  valid <- validate_header t filename_str ;;
  if negb valid then ret tt
  else
    created <- create_identifier filename_str ;;
    match created with
    | None => ret tt
    | Some id =>
        detection <- guarded_detect t filename_str id ;;
        match detection with
        | None => ret tt
        | Some (detected, id) =>
            report t detected id ;;
            incr_scanned
        end
    end.

Definition processFile (t : Task) : M unit :=
  let filename_str := path t in
  try_catch
    (processFile_body t filename_str)
    (fun what =>
       swallow (log_skip LogException filename_str ("Exception: " ++ what)) ;;
       incr_scanned)
    (swallow (log_skip LogException filename_str "Unknown exception") ;;
     incr_scanned).

(** The file loop of [main]: one call of [processFile] after the other,
    each inside its own [try], behind the debug line that names the file. *)
Fixpoint file_loop (files : list Task) : M unit :=
  match files with
  | [] => ret tt
  | file :: rest =>
      try_catch (raising LoopFilename ;; processFile file)
                (fun _ => ret tt) (ret tt) ;;
      file_loop rest
  end.



End Driver.

(** ** The vocabulary of the driver's properties *)

Definition has_entry (name : string) (comments : list entry) : bool :=
  existsb (field_matches name) comments.

Definition count_entries (name : string) (comments : list entry) : nat :=
  List.length (filter (field_matches name) comments).

(** The tag is present on the file: some comment block has an entry of that
    name. *)
Definition tag_present (name : string) (blocks : list block) : bool :=
  existsb (fun b => match b with
                    | VORBIS_COMMENT comments => has_entry name comments
                    | OTHER_BLOCK _ => false
                    | PADDING _ => false
                    end) blocks.

(** The number of entries of that name on the file. *)
Fixpoint tag_count (name : string) (blocks : list block) : nat :=
  match blocks with
  | [] => 0
  | VORBIS_COMMENT comments :: rest => count_entries name comments + tag_count name rest
  | OTHER_BLOCK _ :: rest => tag_count name rest
  | PADDING _ :: rest => tag_count name rest
  end.

Definition is_vorbis (b : block) : bool :=
  match b with
  | VORBIS_COMMENT _ => true
  | OTHER_BLOCK _ => false
  | PADDING _ => false
  end.

(** The format allows one Vorbis comment block per stream. *)
Definition single_comment_block (blocks : list block) : Prop :=
  (List.length (filter is_vorbis blocks) <= 1)%nat.

Definition file_tag_count (name file : string) (s : State) : nat :=
  match disk_get file (disk s) with
  | Some blocks => tag_count name blocks
  | None => 0
  end.

Definition header_valid (t : Task) : bool :=
  openable t && String.eqb (substring 0 4 (leading_bytes t)) "fLaC".







(** *** Synthetic files *)

Definition plain : Config := mkConfig false false.

(** 16-bit stereo, the synchronization word followed by forty silent
    samples. *)
Definition watermarked_stream : FlacFile :=
  stereo_file 44100 16 [sync_samples 0 ++ silence 40].

Definition silent_stream : FlacFile :=
  stereo_file 44100 16 [silence 4096].

Definition positive_task : Task := mkTask "a/mqa.flac" true "fLaC" watermarked_stream.
Definition negative_task : Task := mkTask "a/plain.flac" true "fLaC" silent_stream.
Definition non_audio_task : Task :=
  mkTask "a/bad_header.flac" true "Not a flac" (mkFlacFile (Some "ERROR_OPENING_FILE"%string) [] [] "").





Definition tagged_chain : list block :=
  [OTHER_BLOCK 4;
   VORBIS_COMMENT [("MQAENCODER"%string, "MQA"%string);
                   ("OriginalSampleRate"%string, "88200"%string)]].

Definition tagged_state : State :=
  initial_state [("a/mqa.flac"%string, tagged_chain)].

Definition three_files : disk_files :=
  [("a/mqa.flac"%string, [OTHER_BLOCK 4]); ("a/plain.flac"%string, [VORBIS_COMMENT []])].

(** What one call of [tagFile] can do to the disk: nothing, or write back the
    chain of the file with the entries of its comment block completed, as
    [chain.write()] stores it. *)
Definition tag_step (file : string) (original_rate : Z) (d d' : disk_files) : Prop :=
  d' = d \/
  exists blocks blocks0 comments comments',
    disk_get file d = Some blocks /\
    ((find_vorbis blocks = Some comments /\ blocks0 = blocks) \/
     (find_vorbis blocks = None /\ blocks0 = blocks ++ [VORBIS_COMMENT []]
      /\ comments = [])) /\
    ensure_tags original_rate comments = (comments', true) /\
    d' = disk_put file
           (prepare_for_write (chain_length blocks) (set_vorbis comments' blocks0)) d.

Definition same_counters (s s' : State) : Prop :=
  scanned_count s' = scanned_count s /\ mqa_count s' = mqa_count s.

(** A computation that ends, by a return or by an exception, with both
    counters as it found them. *)
Definition quiet {A : Type} (m : M A) : Prop :=
  forall s,
    match m s with
    | Returns _ s' => same_counters s s'
    | Throwing _ s' => same_counters s s'
    | Undefined => False
    end.


(** * Further vocabulary *)

(** The sixteen rates [OriginalSampleRateDecoder] can return, by code. *)
Definition rate_table : list Z :=
  [44100; 48000; 705600; 768000; 176400; 192000; 5644800; 6144000;
   88200; 96000; 2822400; 3072000; 352800; 384000; 11289600; 12288000].

(** The number of samples in a list of blocks. *)
Definition total_samples (blocks : list (list sample)) : Z :=
  Z.of_nat (List.length (List.concat blocks)).

(** A comment as the library hands it to [metadata_callback]: the field
    name, the equals sign and the value. *)
Definition comment_text (e : entry) : string :=
  (fst e ++ "=" ++ snd e)%string.

Definition starts_with_encoder (comment : string) : bool :=
  String.eqb (substring 0 10 comment) "MQAENCODER".

(** The decoder after [write_callback] has stored the given blocks. *)
Definition store_blocks (blocks : list (list sample)) (d : Decoder) : Decoder :=
  mkDecoder (sample_rate d) (channels d) (bps d)
            (decoded_samples d + total_samples blocks)
            (samples d ++ List.concat blocks)
            (mqa_encoder d) (original_sample_rate d) (error_message d)
            (end_of_stream d).

Definition swap_channels (s : sample) : sample := (snd s, fst s).

(** ** Effects of the driver *)

(** A computation whose final state, reached by a return or by an exception,
    is related to its initial state by [R]. *)
Definition respects (R : State -> State -> Prop) {A : Type} (m : M A) : Prop :=
  forall s,
    match m s with
    | Returns _ s' => R s s'
    | Throwing _ s' => R s s'
    | Undefined => True
    end.

(** The entries of a list that come after a given prefix. *)
Definition extends {A : Type} (old new : list A) : Prop :=
  exists added, new = old ++ added.

(** The ledger and the detailed log have only gained entries. *)
Definition logs_grow (s s' : State) : Prop :=
  (forall reason, extends (ledger_get reason (scan_errors s))
                          (ledger_get reason (scan_errors s'))) /\
  extends (detailed_log s) (detailed_log s').


(** The reason under which [processFile] files a task that fails the header
    check. *)
Definition rejection_reason (t : Task) : string :=
  if negb (openable t) then "Invalid FLAC: Cannot open file"
  else if negb (String.length (substring 0 4 (leading_bytes t)) =? 4)%nat
       then "Invalid FLAC: File too small or unreadable"
       else "Not a valid FLAC file".






(** ** The command line of [main] *)

Record Arguments : Type := mkArguments {
  arg_verbose : bool;
  arg_dry_run : bool;
  input_paths : list string
}.

(** One turn of the argument loop. *)
Definition parse_argument (a : Arguments) (arg : string) : Arguments :=
  if String.eqb arg "-v" then
    mkArguments true (arg_dry_run a) (input_paths a)
  else if String.eqb arg "--dry-run" then
    mkArguments (arg_verbose a) true (input_paths a)
  else if String.eqb (substring 0 6 arg) "--log=" then
    mkArguments (arg_verbose a) (arg_dry_run a) (input_paths a ++ [arg])
  else
    mkArguments (arg_verbose a) (arg_dry_run a) (input_paths a ++ [arg]).

(** The loop over [argv[1 .. argc - 1]], from the initial values of the
    globals. *)
Definition parse_arguments (args : list string) : Arguments :=
  fold_left parse_argument args (mkArguments false false []).

Definition is_flag (arg : string) : bool :=
  String.eqb arg "-v" || String.eqb arg "--dry-run".

(** ** The bounded loop of the pooled revision of [main] *)

(** [max_threads]: the hardware concurrency, 4 when it is reported as 0,
    capped at 16. *)
Definition max_threads (hardware_concurrency : nat) : nat :=
  let max_threads :=
    if (hardware_concurrency =? 0)%nat then 4%nat else hardware_concurrency in
  if (16 <? max_threads)%nat then 16%nat else max_threads.

(** One turn of the bounded loop over the vector [futures], held as the
    indices of its tasks, oldest first.  [ready] tells which futures answer
    [wait_for(0)] with [ready]; they are erased; if the vector is still
    full its front is waited for and erased; the new task goes to the
    back. *)
Definition launch (max_threads : nat) (ready : nat -> bool) (count : nat)
           (futures : list nat) : list nat :=
  let futures := filter (fun i => negb (ready i)) futures in
  let futures :=
    if (max_threads <=? List.length futures)%nat then tl futures else futures in
  futures ++ [S count].

(** The loop over the files, one poll per file. *)
Fixpoint bounded_loop (max_threads : nat) (polls : list (nat -> bool)) (count : nat)
         (futures : list nat) : list nat :=
  match polls with
  | [] => futures
  | ready :: rest =>
      bounded_loop max_threads rest (S count) (launch max_threads ready count futures)
  end.

(** Strictly increasing indices: the order of admission. *)
Fixpoint increasing (l : list nat) : Prop :=
  match l with
  | [] => True
  | i :: rest => (forall j, In j rest -> (i < j)%nat) /\ increasing rest
  end.



(** What the loop keeps about its vector of futures. *)
Definition pool_invariant (m count : nat) (futures : list nat) : Prop :=
  (List.length futures <= m)%nat /\ increasing futures /\
  forall j, In j futures -> (1 <= j <= count)%nat.

(** ** The directory scan of [main.cc] *)

(** What the traversal meets at a path: a regular file, a directory with its
    entries by name, something that is neither, or a path whose status
    cannot be read, with the text of the filesystem error. *)
#[local] Unset Elimination Schemes.
Inductive fs_node : Type :=
| RegularFile
| Directory (entries : list (string * fs_node))
| OtherFile
| Failing (what : string).
#[local] Set Elimination Schemes.

Fixpoint has_slash (p : string) : bool :=
  match p with
  | EmptyString => false
  | String c p' => Ascii.eqb c "/" || has_slash p'
  end.

(** [path::filename()]: what follows the last separator. *)
Fixpoint filename (p : string) : string :=
  match p with
  | EmptyString => EmptyString
  | String c p' =>
      if has_slash p' then filename p'
      else if Ascii.eqb c "/" then p' else p
  end.

(** The suffix of a name that starts at its rightmost period. *)
Fixpoint last_dot_suffix (s : string) : option string :=
  match s with
  | EmptyString => None
  | String c s' =>
      match last_dot_suffix s' with
      | Some x => Some x
      | None => if Ascii.eqb c "." then Some s else None
      end
  end.

(** [path::extension()] of a file name: from the rightmost period on, a
    period in first position not counting; empty for "." and "..". *)
Definition extension (name : string) : string :=
  if String.eqb name ".." then EmptyString
  else
    match name with
    | EmptyString => EmptyString
    | String _ rest =>
        match last_dot_suffix rest with
        | Some x => x
        | None => EmptyString
        end
    end.

Fixpoint ends_with_slash (p : string) : bool :=
  match p with
  | EmptyString => false
  | String c EmptyString => Ascii.eqb c "/"
  | String _ p' => ends_with_slash p'
  end.

(** [dir / name] for a relative name. *)
Definition join (dir name : string) : string :=
  if is_empty dir || ends_with_slash dir then (dir ++ name)%string
  else (dir ++ "/" ++ name)%string.

(** The state change of [log_skip]. *)
Definition record_skip (cfg : Config) (file reason : string) (s : State) : State :=
  mkState (scanned_count s) (mqa_count s)
          (ledger_push reason file (scan_errors s))
          (if verbose_logging cfg
           then detailed_log s ++ [("[ERROR] " ++ file ++ ": " ++ reason)%string]
           else detailed_log s)
          (disk s).

(** [recursiveScan] on a path that exists.  A status that cannot be read is
    caught by the handler of the call when it is the path of the call, and
    by the handler of the entry when it is an entry of a directory. *)
Fixpoint recursiveScan_node (cfg : Config) (curDir : string) (node : fs_node)
         (files : list string) (s : State) {struct node} : list string * State :=
  match node with
  | Failing what =>
      (files, record_skip cfg curDir ("Access Denied / Filesystem Error: " ++ what) s)
  | RegularFile =>
      if String.eqb (extension (filename curDir)) ".flac"
      then (files ++ [curDir], s) else (files, s)
  | OtherFile => (files, s)
  | Directory entries =>
      (fix loop (entries : list (string * fs_node)) (files : list string) (s : State)
         : list string * State :=
         match entries with
         | [] => (files, s)
         | (name, entry) :: rest =>
             let p := join curDir name in
             let '(files, s) :=
               match entry with
               | RegularFile =>
                   if String.eqb (extension (filename p)) ".flac"
                   then (files ++ [p], s) else (files, s)
               | Directory _ => recursiveScan_node cfg p entry files s
               | OtherFile => (files, s)
               | Failing what =>
                   (files, record_skip cfg p ("Filesystem Error: " ++ what) s)
               end in
             loop rest files s
         end) entries files s
  end.

(** [recursiveScan]: a path that does not exist is filed and skipped. *)
Definition recursiveScan (cfg : Config) (curDir : string) (root : option fs_node)
           (files : list string) (s : State) : list string * State :=
  match root with
  | None => (files, record_skip cfg curDir "Path does not exist" s)
  | Some node => recursiveScan_node cfg curDir node files s
  end.

(** The loop of [main] over the input paths. *)
Fixpoint scan_inputs (cfg : Config) (inputs : list (string * option fs_node))
         (files : list string) (s : State) : list string * State :=
  match inputs with
  | [] => (files, s)
  | (p, root) :: rest =>
      let '(files, s) := recursiveScan cfg p root files s in
      scan_inputs cfg rest files s
  end.

(** The paths below a node that are regular files with the extension
    ".flac", in the order of the directories. *)
Fixpoint flac_files (p : string) (node : fs_node) {struct node} : list string :=
  match node with
  | RegularFile => if String.eqb (extension (filename p)) ".flac" then [p] else []
  | Directory entries =>
      (fix below (entries : list (string * fs_node)) : list string :=
         match entries with
         | [] => []
         | (name, entry) :: rest => flac_files (join p name) entry ++ below rest
         end) entries
  | OtherFile => []
  | Failing _ => []
  end.

(** A small tree: two albums, a cover image, a hidden file and an entry the
    system refuses to describe. *)
Definition music_tree : fs_node :=
  Directory
    [("a.flac"%string, RegularFile);
     ("cover.jpg"%string, RegularFile);
     ("broken"%string, Failing "Input/output error");
     (".flac"%string, RegularFile);
     ("B.FLAC"%string, RegularFile);
     ("sub"%string, Directory [("c.d.flac"%string, RegularFile);
                               ("pipe"%string, OtherFile)])].

(** The traversal changes the ledger and the log only, and only by adding
    to them. *)
Definition scan_keeps (s s' : State) : Prop :=
  scanned_count s' = scanned_count s /\ mqa_count s' = mqa_count s /\
  disk s' = disk s /\ logs_grow s s'.

Definition is_flac_path (p : string) : Prop :=
  extension (filename p) = ".flac"%string.

(** What the scan of one input path finds. *)
Definition found_in (input : string * option fs_node) : list string :=
  match snd input with
  | Some node => flac_files (fst input) node
  | None => []
  end.

(** A file name made of a stem of at least one character and ".flac". *)
Definition flac_name (name : string) : Prop :=
  exists c stem, name = (String c stem ++ ".flac")%string.
(** * Properties *)

(** ** RateCodec *)

Lemma small_code_cases (c : Z) :
  0 <= c <= 15 ->
  In c [0; 1; 2; 3; 4; 5; 6; 7; 8; 9; 10; 11; 12; 13; 14; 15].
Proof.
  intros H. simpl.
  assert (c = 0 \/ c = 1 \/ c = 2 \/ c = 3 \/ c = 4 \/ c = 5 \/ c = 6 \/ c = 7 \/
          c = 8 \/ c = 9 \/ c = 10 \/ c = 11 \/ c = 12 \/ c = 13 \/ c = 14 \/ c = 15)
    as Hc by lia.
  intuition auto.
Qed.

(** C3. On every code of 0..15 the decoder returns base × multiplier, with
    base 48000 when the low bit is set and 44100 otherwise, and multiplier
    2^(bit3 | bit2<<1 | bit1<<2), doubled once more above 16; codes 0b0000,
    0b0001 and 0b1111 give 44100, 48000 and 12288000; every larger unsigned
    code raises the "Invalid bytecode" logic error. *)
Theorem OriginalSampleRateDecoder_table (c : Z) (Hc : is_u32 c) :
  (c <= 15 ->
   OriginalSampleRateDecoder c = Ok (rate_base c * rate_multiplier c)) /\
  (15 < c ->
   OriginalSampleRateDecoder c = Raise (StdException "Invalid bytecode")) /\
  OriginalSampleRateDecoder 0 = Ok 44100 /\
  OriginalSampleRateDecoder 1 = Ok 48000 /\
  OriginalSampleRateDecoder 15 = Ok 12288000.
Proof.
  repeat split; try reflexivity.
  - intros Hle.
    assert (Hin : In c [0; 1; 2; 3; 4; 5; 6; 7; 8; 9; 10; 11; 12; 13; 14; 15]).
    { apply small_code_cases. unfold is_u32 in Hc. lia. }
    simpl in Hin.
    repeat (destruct Hin as [<- | Hin]; [vm_compute; reflexivity |]).
    contradiction.
  - intros Hgt. unfold OriginalSampleRateDecoder.
    destruct (Z.ltb_spec 15 c); [reflexivity | lia].
Qed.

Lemma OriginalSampleRateDecoder_table_witness :
  is_u32 9 /\
  OriginalSampleRateDecoder 9 = Ok (rate_base 9 * rate_multiplier 9) /\
  OriginalSampleRateDecoder 9 = Ok 96000.
Proof.
  split; [unfold is_u32; lia |].
  split; [| reflexivity].
  apply (OriginalSampleRateDecoder_table 9); [unfold is_u32; lia | lia].
Defined.

(** ** Running the model on synthetic streams *)

Example detect_sync_16 :
  detect (stereo_file 44100 16 [silence 5 ++ sync_samples 0 ++ silence 40]) new_identifier
  = Returns true
      (mkIdentifier
         (mkDecoder 44100 2 16 81 (silence 5 ++ sync_samples 0 ++ silence 40) "" 44100 "" true)
         true false "").
Proof. vm_compute. reflexivity. Qed.

Example scan_offset_1_24 :
  scan 8 (silence 7 ++ sync_samples 9 ++ silence 40) = Match 1 42.
Proof. vm_compute. reflexivity. Qed.

(** ** The shift registers *)

Lemma MASK36_ones : MASK36 = Z.ones 36.
Proof. reflexivity. Qed.

Lemma shift36_testbit (x n : Z) :
  0 <= n -> Z.testbit (shift36 x) n = Z.testbit x (n - 1) && (n <? 36).
Proof.
  intros Hn. unfold shift36.
  rewrite Z.land_spec, MASK36_ones, Z.testbit_ones_nonneg by lia.
  rewrite Z.shiftl_spec by lia. reflexivity.
Qed.

Lemma bit01_high (b n : Z) : bit01 b -> 0 < n -> Z.testbit b n = false.
Proof.
  intros [-> | ->] Hn.
  - apply Z.testbit_0_l.
  - change 1 with (Z.ones 1). rewrite Z.testbit_ones_nonneg by lia.
    apply Z.ltb_ge. lia.
Qed.

Lemma bit01_b2z (b : Z) : bit01 b -> b = Z.b2z (Z.odd b).
Proof. intros [-> | ->]; reflexivity. Qed.

Lemma land_1_mod (x : Z) : Z.land x 1 = x mod 2.
Proof. exact (Z.land_ones x 1 ltac:(lia)). Qed.

Lemma plane_bit_01 (pos k : Z) (s : sample) : bit01 (plane_bit pos k s).
Proof.
  unfold plane_bit, bit01. rewrite land_1_mod.
  assert (H := Z.mod_pos_bound (Z.shiftr (xor_diff s) (u32 (pos + k))) 2).
  lia.
Qed.

Lemma shifted_snoc (bs : list Z) (b : Z) :
  shifted (bs ++ [b]) = shift36 (Z.lor (shifted bs) b).
Proof. unfold shifted. rewrite fold_left_app. reflexivity. Qed.

(** Bit [j] of a shifted register is the bit consumed [j] steps ago, for
    [j] from 1 to 35; bit 0 and the bits from 36 on are clear. *)
Lemma shifted_testbit (bs : list Z) :
  Forall bit01 bs ->
  forall j : nat,
    Z.testbit (shifted bs) (Z.of_nat j) =
    (1 <=? j)%nat && (j <? 36)%nat && (j <=? List.length bs)%nat
    && Z.odd (nth (List.length bs - j) bs 0).
Proof.
  induction bs as [| b bs IH] using rev_ind; intros Hall j.
  - unfold shifted. simpl. rewrite Z.testbit_0_l.
    destruct j; simpl; [reflexivity |].
    rewrite andb_false_r. reflexivity.
  - apply Forall_app in Hall. destruct Hall as [Hbs Hb].
    inversion Hb as [| ? ? Hb01 _]; subst.
    rewrite shifted_snoc, shift36_testbit by lia.
    rewrite length_app. simpl List.length.
    destruct j as [| j].
    + simpl. reflexivity.
    + replace (Z.of_nat (S j) - 1) with (Z.of_nat j) by lia.
      rewrite Z.lor_spec, (IH Hbs j).
      replace (List.length bs + 1 - S j)%nat with (List.length bs - j)%nat by lia.
      destruct j as [| j].
      * simpl. rewrite Nat.sub_0_r, nth_middle.
        replace (List.length bs + 1)%nat with (S (List.length bs)) by lia.
        destruct (Z.odd b); reflexivity.
      * rewrite (bit01_high b) by (auto; lia). rewrite orb_false_r.
        assert (Hlt : (Z.of_nat (S (S j)) <? 36) = (S (S j) <? 36)%nat).
        { destruct (Z.ltb_spec (Z.of_nat (S (S j))) 36);
            destruct (Nat.ltb_spec (S (S j)) 36); try reflexivity; lia. }
        rewrite Hlt.
        destruct (Nat.ltb_spec (S (S j)) 36) as [H36 | H36].
        -- destruct (Nat.ltb_spec (S j) 36); [| lia].
           destruct (Nat.leb_spec (S j) (List.length bs)) as [Hle | Hgt].
           ++ destruct (Nat.leb_spec (S (S j)) (List.length bs + 1)); [| lia].
              rewrite app_nth1 by lia. simpl. rewrite !andb_true_r. reflexivity.
           ++ destruct (Nat.leb_spec (S (S j)) (List.length bs + 1)); [lia |].
              simpl. reflexivity.
        -- rewrite !andb_false_r. simpl. reflexivity.
Qed.

(** The register at the moment of the comparison, the new bit or-ed in. *)
Lemma compare_testbit (pre : list Z) (b : Z) (j : nat) :
  Forall bit01 pre -> bit01 b ->
  Z.testbit (Z.lor (shifted pre) b) (Z.of_nat j) =
  match j with
  | O => Z.odd b
  | S _ => (j <? 36)%nat && (j <=? List.length pre)%nat
           && Z.odd (nth (List.length pre - j) pre 0)
  end.
Proof.
  intros Hpre Hb. rewrite Z.lor_spec, (shifted_testbit pre Hpre j).
  destruct j as [| j].
  - simpl. apply Z.bit0_odd.
  - rewrite (bit01_high b) by (auto; lia). rewrite orb_false_r.
    reflexivity.
Qed.

Lemma MAGIC_high (n : Z) : 36 <= n -> Z.testbit MAGIC n = false.
Proof.
  intros Hn. apply Z.bits_above_log2; [unfold MAGIC; lia |].
  replace (Z.log2 MAGIC) with 35 by reflexivity. lia.
Qed.

Lemma planes_01 (pos k : Z) (l : list sample) :
  Forall bit01 (map (plane_bit pos k) l).
Proof.
  apply Forall_forall. intros b Hb. apply in_map_iff in Hb.
  destruct Hb as [s [<- _]]. apply plane_bit_01.
Qed.

Lemma nth_plane (pos k : Z) (l : list sample) (n : nat) (s : sample) :
  nth_error l n = Some s -> nth n (map (plane_bit pos k) l) 0 = plane_bit pos k s.
Proof.
  intros H. apply nth_error_nth. rewrite nth_error_map, H. reflexivity.
Qed.

(** A register equals the constant exactly when the word ends on the current
    sample of its plane. *)
Lemma register_matches (pos k : Z) (pre : list sample) (s : sample) (rest : list sample) :
  (Z.lor (shifted (map (plane_bit pos k) pre)) (plane_bit pos k s) =? MAGIC)
  = sync_atb pos k (pre ++ s :: rest) (List.length pre).
Proof.
  assert (Hbit : forall j : nat,
             Z.testbit (Z.lor (shifted (map (plane_bit pos k) pre)) (plane_bit pos k s))
                       (Z.of_nat j) =
             match j with
             | O => Z.odd (plane_bit pos k s)
             | S _ => (j <? 36)%nat && (j <=? List.length pre)%nat
                      && Z.odd (nth (List.length pre - j) (map (plane_bit pos k) pre) 0)
             end).
  { intros j. rewrite compare_testbit by (apply planes_01 || apply plane_bit_01).
    rewrite length_map. reflexivity. }
  apply eq_true_iff_eq. split.
  - intros H. apply Z.eqb_eq in H. rewrite H in Hbit.
    assert (H35 : (35 <= List.length pre)%nat).
    { specialize (Hbit 35%nat). change (Z.testbit MAGIC (Z.of_nat 35)) with true in Hbit.
      symmetry in Hbit. apply andb_prop in Hbit. destruct Hbit as [Hbit _].
      apply andb_prop in Hbit. destruct Hbit as [_ Hbit].
      apply Nat.leb_le in Hbit. exact Hbit. }
    unfold sync_atb. apply forallb_forall. intros j Hj. apply in_seq in Hj.
    apply andb_true_intro. split; [apply Nat.leb_le; lia |].
    specialize (Hbit j). destruct j as [| j].
    + rewrite Nat.sub_0_r, nth_error_app2, Nat.sub_diag by lia. simpl nth_error.
      apply Z.eqb_eq. rewrite Hbit. apply bit01_b2z, plane_bit_01.
    + rewrite nth_error_app1 by lia.
      destruct (nth_error pre (List.length pre - S j)) as [s' |] eqn:E.
      * rewrite (nth_plane pos k pre _ s' E) in Hbit.
        destruct (Nat.ltb_spec (S j) 36); [| lia].
        destruct (Nat.leb_spec (S j) (List.length pre)); [| lia].
        cbn [andb] in Hbit. apply Z.eqb_eq. rewrite Hbit.
        apply bit01_b2z, plane_bit_01.
      * apply nth_error_None in E. lia.
  - intros H. unfold sync_atb in H. rewrite forallb_forall in H.
    apply Z.eqb_eq. apply Z.bits_inj'. intros n Hn.
    rewrite <- (Z2Nat.id n Hn). set (j := Z.to_nat n).
    rewrite Hbit.
    destruct (Nat.ltb_spec j 36) as [Hlt | Hge].
    + assert (Hin : In j (seq 0 36)) by (apply in_seq; lia).
      specialize (H j Hin). apply andb_prop in H. destruct H as [Hle H].
      apply Nat.leb_le in Hle.
      destruct j as [| j'].
      * rewrite Nat.sub_0_r, nth_error_app2, Nat.sub_diag in H by lia.
        simpl nth_error in H. apply Z.eqb_eq in H.
        rewrite H. destruct (Z.testbit MAGIC (Z.of_nat 0)); reflexivity.
      * rewrite nth_error_app1 in H by lia.
        destruct (nth_error pre (List.length pre - S j')) as [s' |] eqn:E;
          [| discriminate].
        rewrite (nth_plane pos k pre _ s' E).
        destruct (Nat.ltb_spec (S j') 36); [| lia].
        destruct (Nat.leb_spec (S j') (List.length pre)); [| lia].
        apply Z.eqb_eq in H. rewrite H. cbn [andb].
        destruct (Z.testbit MAGIC (Z.of_nat (S j'))); reflexivity.
    + rewrite MAGIC_high by lia.
      destruct j as [| j']; [lia |].
      destruct (Nat.ltb_spec (S j') 36); [lia |]. reflexivity.
Qed.

Lemma sync_atb_out_of_range (pos k : Z) (l : list sample) (i : nat) :
  (List.length l <= i)%nat -> sync_atb pos k l i = false.
Proof.
  intros H. unfold sync_atb.
  change (seq 0 36) with (0%nat :: seq 1 35).
  cbn [forallb]. rewrite Nat.sub_0_r.
  assert (E : nth_error l i = None) by (apply nth_error_None; exact H).
  rewrite E, andb_false_r. reflexivity.
Qed.

(** ** The scanning loop *)

Lemma shifted_step (pos k : Z) (pre : list sample) (s : sample) :
  shift36 (Z.lor (shifted (map (plane_bit pos k) pre)) (plane_bit pos k s))
  = shifted (map (plane_bit pos k) (pre ++ [s])).
Proof. rewrite map_app. simpl map. rewrite shifted_snoc. reflexivity. Qed.

Lemma scan_from_correct (pos : Z) (rest : list sample) :
  forall pre : list sample,
    scan_post pos (pre ++ rest) (List.length pre)
      (scan_from pos rest (List.length pre)
                 (shifted (map (plane_bit pos 0) pre))
                 (shifted (map (plane_bit pos 1) pre))
                 (shifted (map (plane_bit pos 2) pre))).
Proof.
  induction rest as [| s rest IH]; intros pre.
  - simpl. intros i k Hi _. apply sync_atb_out_of_range.
    rewrite app_nil_r. exact Hi.
  - cbn [scan_from].
    rewrite (register_matches pos 0 pre s rest).
    rewrite (register_matches pos 1 pre s rest).
    rewrite (register_matches pos 2 pre s rest).
    assert (Hlen : (List.length pre < List.length (pre ++ s :: rest))%nat).
    { rewrite length_app. simpl. lia. }
    destruct (sync_atb pos 0 (pre ++ s :: rest) (List.length pre)) eqn:E0.
    { simpl. repeat split; try lia.
      - left. reflexivity.
      - exact E0.
      - intros k' [-> | [-> | ->]] Hk'; lia. }
    destruct (sync_atb pos 1 (pre ++ s :: rest) (List.length pre)) eqn:E1.
    { simpl. repeat split; try lia.
      - right. left. reflexivity.
      - exact E1.
      - intros k' [-> | [-> | ->]] Hk'; try lia. exact E0. }
    destruct (sync_atb pos 2 (pre ++ s :: rest) (List.length pre)) eqn:E2.
    { simpl. repeat split; try lia.
      - right. right. reflexivity.
      - exact E2.
      - intros k' [-> | [-> | ->]] Hk'; try lia; assumption. }
    rewrite !shifted_step.
    specialize (IH (pre ++ [s])).
    rewrite <- app_assoc in IH. simpl app in IH.
    replace (List.length (pre ++ [s])) with (S (List.length pre)) in IH
      by (rewrite length_app; simpl; lia).
    assert (Hhere : forall k, offset k ->
                sync_atb pos k (pre ++ s :: rest) (List.length pre) = false).
    { intros k [-> | [-> | ->]]; assumption. }
    destruct (scan_from pos rest (S (List.length pre)) _ _ _) as [| k i].
    + simpl in *. intros i k Hi Hk.
      destruct (Nat.eq_dec i (List.length pre)) as [-> | Hne].
      * apply Hhere, Hk.
      * apply IH; [lia | exact Hk].
    + simpl in *. destruct IH as (Hi & Hk & Hsync & Hbefore & Hprio).
      repeat split; try lia; try assumption.
      intros i' k' Hi' Hk'.
      destruct (Nat.eq_dec i' (List.length pre)) as [-> | Hne].
      * apply Hhere, Hk'.
      * apply Hbefore; [lia | exact Hk'].
Qed.

Lemma scan_correct (pos : Z) (l : list sample) :
  scan_post pos l 0 (scan pos l).
Proof. exact (scan_from_correct pos l []). Qed.

(** C1. When the synchronization word lies in plane [k], ending on sample
    [i], the scanning loop of [detect] returns from a matching branch: at the
    first sample on which any of the three registers holds the word and, on
    that sample, in the branch of the lowest such offset (0 before 1 before
    2).  When no register matches before [i] and none of lower offset
    matches on [i], that branch is the one of offset [k], on sample [i]. *)
Theorem scan_reports_first_sync (pos : Z) (l : list sample) (k : Z) (i : nat) :
  offset k ->
  sync_at pos k l i ->
  (exists k0 i0,
      scan pos l = Match k0 i0 /\ offset k0 /\ sync_at pos k0 l i0 /\
      (i0 <= i)%nat /\ (i0 = i -> k0 <= k) /\
      (forall i' k', (i' < i0)%nat -> offset k' -> ~ sync_at pos k' l i') /\
      (forall k', offset k' -> k' < k0 -> ~ sync_at pos k' l i0)) /\
  ((forall i' k', (i' < i)%nat -> offset k' -> ~ sync_at pos k' l i') ->
   (forall k', offset k' -> k' < k -> ~ sync_at pos k' l i) ->
   scan pos l = Match k i).
Proof.
  intros Hk Hsync. unfold sync_at in *.
  assert (Hpost := scan_correct pos l).
  destruct (scan pos l) as [| k0 i0]; simpl in Hpost.
  - rewrite Hpost in Hsync by (auto; lia). discriminate.
  - destruct Hpost as (Hi0 & Hk0 & Hs0 & Hbefore & Hprio).
    assert (Hle : (i0 <= i)%nat).
    { destruct (Nat.le_gt_cases i0 i) as [H | H]; [exact H |].
      rewrite (Hbefore i k) in Hsync by (auto; lia). discriminate. }
    assert (Hkle : i0 = i -> k0 <= k).
    { intros ->. destruct (Z.le_gt_cases k0 k) as [H | H]; [exact H |].
      rewrite (Hprio k Hk) in Hsync by lia. discriminate. }
    split.
    + exists k0, i0. repeat split; try assumption.
      * intros i' k' Hi' Hk' Hc. rewrite Hbefore in Hc by (auto; lia). discriminate.
      * intros k' Hk' Hlt Hc. rewrite Hprio in Hc by auto. discriminate.
    + intros Hfirst Hlow.
      destruct (Nat.eq_dec i0 i) as [-> | Hne].
      * destruct (Z.eq_dec k0 k) as [-> | Hnk]; [reflexivity |].
        exfalso. apply (Hlow k0 Hk0); [| exact Hs0].
        specialize (Hkle eq_refl). lia.
      * exfalso. apply (Hfirst i0 k0); [lia | exact Hk0 | exact Hs0].
Qed.

Lemma scan_reports_first_sync_witness :
  offset 1 /\
  sync_at 8 1 (silence 7 ++ sync_samples 9 ++ silence 40) 42 /\
  scan 8 (silence 7 ++ sync_samples 9 ++ silence 40) = Match 1 42.
Proof.
  assert (Hk : offset 1) by (right; left; reflexivity).
  assert (Hs : sync_at 8 1 (silence 7 ++ sync_samples 9 ++ silence 40) 42)
    by (vm_compute; reflexivity).
  split; [exact Hk |]. split; [exact Hs |].
  destruct (scan_reports_first_sync 8 _ 1 42 Hk Hs)
    as [(k0 & i0 & Hscan & _) _].
  rewrite Hscan. vm_compute in Hscan. symmetry. exact Hscan.
Defined.

(** ** The reading loop of [decode] *)

(** An invariant of the decoder that every step of the file preserves holds
    when the loop ends, however it ends. *)
Lemma decode_loop_invariant (P : Decoder -> Prop) (steps : list decode_step) :
  (forall d, P d -> P (set_end_of_stream d)) ->
  (forall st d, In st steps -> P d ->
                decoded_samples d < three_seconds d ->
                error_message d = ""%string ->
                match final_state (process_single st d) with
                | Some d' => P d'
                | None => True
                end) ->
  forall ok d, P d ->
               match final_state (decode_loop steps ok d) with
               | Some d' => P d'
               | None => True
               end.
Proof.
  intros Hend.
  induction steps as [| st rest IH]; intros Hstep ok d HP; cbn [decode_loop].
  - destruct ((decoded_samples d <? three_seconds d)
              && is_empty (error_message d) && negb (end_of_stream d));
      simpl; auto.
  - destruct ((decoded_samples d <? three_seconds d)
              && is_empty (error_message d) && negb (end_of_stream d)) eqn:Hc;
      [| simpl; exact HP].
    apply andb_prop in Hc. destruct Hc as [Hc _].
    apply andb_prop in Hc. destruct Hc as [Hlt Hemp].
    apply Z.ltb_lt in Hlt.
    assert (Herr : error_message d = ""%string)
      by (destruct (error_message d); [reflexivity | discriminate]).
    assert (H1 := Hstep st d (or_introl eq_refl) HP Hlt Herr).
    destruct (process_single st d) as [ok' d' | e d' |]; simpl in H1.
    + apply IH; [| exact H1].
      intros st' d'' Hin. apply Hstep. right. exact Hin.
    + simpl. exact H1.
    + simpl. exact I.
Qed.

Lemma block_le_max (st : decode_step) (steps : list decode_step) :
  In st steps -> Z.of_nat (List.length (block_of st)) <= max_block steps.
Proof.
  induction steps as [| a steps IH]; intros Hin; [contradiction |].
  simpl. destruct Hin as [-> | Hin]; [lia |].
  specialize (IH Hin). lia.
Qed.

Lemma max_block_nonneg (steps : list decode_step) : 0 <= max_block steps.
Proof. induction steps as [| a steps IH]; simpl; lia. Qed.

Lemma decode_loop_bounded (steps : list decode_step) (ok : bool) (d : Decoder) :
  bounded_store (sample_rate d) (max_block steps) d ->
  match final_state (decode_loop steps ok d) with
  | Some d' => bounded_store (sample_rate d) (max_block steps) d'
  | None => True
  end.
Proof.
  apply decode_loop_invariant.
  - intros d0 H. exact H.
  - intros st d0 Hin (Hrate & Hdec & Hb) Hlt Herr.
    destruct st as [block | status ok' | e]; simpl.
    + unfold write_callback.
      destruct (unsupported_format d0); simpl.
      * repeat split; assumption.
      * unfold bounded_store. simpl. split; [exact Hrate |].
        rewrite length_app. split; [lia |].
        right. unfold three_seconds in Hlt. rewrite Hrate in Hlt.
        assert (Hblk := block_le_max (Frame block) steps Hin).
        simpl in Hblk. lia.
    + repeat split; assumption.
    + repeat split; assumption.
Qed.

Lemma decode_init_store (f : FlacFile) (d : Decoder) :
  samples (snd (decode_init f d)) = samples d /\
  decoded_samples (snd (decode_init f d)) = decoded_samples d.
Proof.
  unfold decode_init. destruct (init_failure f) as [status |]; simpl.
  - split; reflexivity.
  - generalize dependent d.
    induction (file_metadata f) as [| m ms IH]; intros d; simpl.
    + split; reflexivity.
    + destruct (IH (metadata_callback m d)) as [H1 H2].
      rewrite H1, H2. destruct m; simpl; split; reflexivity.
Qed.

Lemma decode_final_state (f : FlacFile) (d0 : Decoder) :
  final_state (decode f d0) =
  match final_state (decode_loop (file_steps f) (fst (decode_init f d0))
                                 (snd (decode_init f d0))) with
  | Some d => Some d
  | None => None
  end
  \/ exists d msg,
      final_state (decode_loop (file_steps f) (fst (decode_init f d0))
                               (snd (decode_init f d0))) = Some d /\
      final_state (decode f d0) = Some (set_error_message msg d).
Proof.
  unfold decode. destruct (decode_init f d0) as [ok d1]. simpl.
  destruct (decode_loop (file_steps f) ok d1) as [ok' d' | e d' |]; simpl.
  - destruct (negb ok' && is_empty (error_message d')).
    + right. exists d'. eexists. split; reflexivity.
    + left. reflexivity.
  - left. reflexivity.
  - left. reflexivity.
Qed.

(** C6 (as the code has it). The loop of [decode] takes a further frame only
    while fewer than sampleRate × 3 samples (the product taken in 32 bits)
    are stored, and stores every frame whole: what [decode] delivers, and
    [detect] scans, is either empty or at most sampleRate × 3 − 1 plus the
    largest block size of the file. *)
Theorem decode_stores_three_seconds_and_a_frame (f : FlacFile) (d : Decoder) :
  final_state (decode f new_decoder) = Some d ->
  decoded_samples d = Z.of_nat (List.length (samples d)) /\
  (samples d = [] \/
   Z.of_nat (List.length (samples d))
   <= u32 (sample_rate d * 3) - 1 + max_block (file_steps f)).
Proof.
  intros Hd.
  assert (H0 : bounded_store (sample_rate (snd (decode_init f new_decoder)))
                             (max_block (file_steps f))
                             (snd (decode_init f new_decoder))).
  { destruct (decode_init_store f new_decoder) as [Hs Hn].
    unfold bounded_store. rewrite Hs, Hn. simpl. auto. }
  assert (H1 := decode_loop_bounded (file_steps f) (fst (decode_init f new_decoder))
                                    _ H0).
  destruct (decode_final_state f new_decoder) as [E | (d' & msg & E1 & E2)].
  - rewrite Hd in E.
    destruct (final_state (decode_loop _ _ _)) as [d' |]; [| discriminate].
    injection E as ->. destruct H1 as (Hr & Hdec & Hb).
    rewrite Hr. split; assumption.
  - rewrite E1 in H1. rewrite Hd in E2. injection E2 as ->.
    destruct H1 as (Hr & Hdec & Hb). simpl. rewrite Hr. split; assumption.
Qed.

Lemma decode_stores_three_seconds_and_a_frame_witness :
  exists d,
    final_state (decode (stereo_file 10 16 (repeat (silence 16) 3)) new_decoder) = Some d /\
    List.length (samples d) = 32%nat /\
    (samples d = [] \/
     Z.of_nat (List.length (samples d))
     <= u32 (sample_rate d * 3) - 1
        + max_block (file_steps (stereo_file 10 16 (repeat (silence 16) 3)))).
Proof.
  eexists. split; [vm_compute; reflexivity |].
  split; [reflexivity |].
  apply (decode_stores_three_seconds_and_a_frame
           (stereo_file 10 16 (repeat (silence 16) 3))).
  vm_compute. reflexivity.
Defined.

(** C6 (as stated) fails: of an 8 kHz file in blocks of 4096 samples the loop
    stores six blocks, 24576 sample pairs, where sampleRate × 3 is 24000;
    all of them are handed to the scanning loop. *)
Lemma decode_exceeds_three_seconds :
  match decode six_blocks_8k new_decoder with
  | Returns _ d => (sample_rate d * 3, Z.of_nat (List.length (samples d)))
  | _ => (0, 0)
  end = (24000, 24576).
Proof. vm_compute. reflexivity. Qed.

(** ** The format guard *)

Lemma metadata_callback_keeps (m : metadata) (d : Decoder) :
  samples (metadata_callback m d) = samples d /\
  decoded_samples (metadata_callback m d) = decoded_samples d /\
  error_message (metadata_callback m d) = error_message d /\
  end_of_stream (metadata_callback m d) = end_of_stream d.
Proof. destruct m; simpl; repeat split; reflexivity. Qed.

Lemma decode_init_ok (f : FlacFile) (d : Decoder) :
  init_failure f = None ->
  fst (decode_init f d) = true /\
  samples (snd (decode_init f d)) = samples d /\
  decoded_samples (snd (decode_init f d)) = decoded_samples d /\
  error_message (snd (decode_init f d)) = error_message d /\
  end_of_stream (snd (decode_init f d)) = end_of_stream d.
Proof.
  intros Hinit. unfold decode_init. rewrite Hinit. simpl.
  split; [reflexivity |].
  generalize dependent d.
  induction (file_metadata f) as [| m ms IH]; intros d; simpl.
  - repeat split; reflexivity.
  - destruct (IH (metadata_callback m d)) as (H1 & H2 & H3 & H4).
    destruct (metadata_callback_keeps m d) as (K1 & K2 & K3 & K4).
    rewrite H1, H2, H3, H4. repeat split; assumption.
Qed.

Lemma decode_loop_defined (steps : list decode_step) :
  forall ok d, decode_loop steps ok d <> Undefined.
Proof.
  induction steps as [| st rest IH]; intros ok d; cbn [decode_loop];
    destruct ((decoded_samples d <? three_seconds d)
              && is_empty (error_message d) && negb (end_of_stream d));
    try discriminate.
  destruct st as [block | status ok' | e]; simpl; try discriminate.
  - unfold write_callback. destruct (unsupported_format d); apply IH.
  - apply IH.
Qed.

Lemma decode_defined (f : FlacFile) (d : Decoder) : decode f d <> Undefined.
Proof.
  unfold decode. destruct (decode_init f d) as [ok d1].
  assert (H := decode_loop_defined (file_steps f) ok d1).
  destruct (decode_loop (file_steps f) ok d1) as [ok' d' | e d' |];
    [| discriminate | contradiction].
  destruct (negb ok' && is_empty (error_message d')); discriminate.
Qed.

Lemma decode_loop_rejecting (steps : list decode_step) (ok : bool) (d : Decoder) :
  unsupported_format d = true ->
  match final_state (decode_loop steps ok d) with
  | Some d' => rejecting (samples d) d'
  | None => True
  end.
Proof.
  intros Hu. apply decode_loop_invariant.
  - intros d0 H. exact H.
  - intros st d0 _ [Hu0 Hs0] _ _.
    destruct st as [block | status ok' | e]; simpl.
    + unfold write_callback. rewrite Hu0. simpl. split; assumption.
    + split; assumption.
    + split; assumption.
  - split; [exact Hu | reflexivity].
Qed.

Lemma decode_rejecting (f : FlacFile) (d : Decoder) :
  unsupported_format (stream_format f) = true ->
  final_state (decode f new_decoder) = Some d ->
  samples d = [].
Proof.
  intros Hu Hd. unfold stream_format in Hu.
  assert (H := decode_loop_rejecting (file_steps f) (fst (decode_init f new_decoder))
                                     _ Hu).
  destruct (decode_init_store f new_decoder) as [Hs _]. rewrite Hs in H.
  destruct (decode_final_state f new_decoder) as [E | (d' & msg & E1 & E2)].
  - rewrite Hd in E.
    destruct (final_state (decode_loop _ _ _)) as [d' |]; [| discriminate].
    injection E as ->. apply H.
  - rewrite E1 in H. rewrite Hd in E2. injection E2 as ->. apply H.
Qed.

Lemma decode_first_frame_rejected (f : FlacFile) (block : list sample)
      (rest : list decode_step) :
  unsupported_format (stream_format f) = true ->
  init_failure f = None ->
  0 < three_seconds (stream_format f) ->
  file_steps f = Frame block :: rest ->
  decode f new_decoder
  = Returns tt (set_error_message (unsupported_message (stream_format f))
                                  (stream_format f)).
Proof.
  intros Hu Hinit Hrate Hsteps. unfold stream_format in *.
  destruct (decode_init_ok f new_decoder Hinit) as (Hok & Hs & Hdec & Herr & Heos).
  unfold decode. rewrite Hsteps.
  destruct (decode_init f new_decoder) as [ok d1]. simpl in *. subst ok.
  rewrite Hdec, Herr, Heos.
  destruct (Z.ltb_spec 0 (three_seconds d1)); [| lia]. simpl.
  unfold write_callback. rewrite Hu. simpl.
  destruct rest; simpl; rewrite andb_false_r; simpl; reflexivity.
Qed.

(** C4 (as the code has it). The format is checked by [write_callback], when
    the first frame arrives.  Under an unsupported format [detect] returns
    false, stores no sample and leaves the watermark flag clear, whatever the
    file holds; when the decoder initialises, sampleRate × 3 is positive and
    the first step of the file delivers a frame, the error message names the
    channel count and the bit depth. *)
Theorem detect_unsupported_format (f : FlacFile) :
  unsupported_format (stream_format f) = true ->
  exists id,
    detect f new_identifier = Returns false id /\
    samples (decoder id) = [] /\
    isMQA_ id = false /\
    (init_failure f = None ->
     0 < three_seconds (stream_format f) ->
     (exists block rest, file_steps f = Frame block :: rest) ->
     error_message_ id = unsupported_message (stream_format f) /\
     error_message_ id <> ""%string).
Proof.
  intros Hu.
  assert (Hs := decode_rejecting f).
  assert (Hdef := decode_defined f new_decoder).
  assert (Hfirst := decode_first_frame_rejected f).
  unfold detect, detect_body. simpl decoder.
  destruct (decode f new_decoder) as [u d | e d |]; [| | contradiction].
  - specialize (Hs d Hu eq_refl).
    destruct (is_empty (error_message d)) eqn:Hemp; simpl.
    + rewrite Hs. simpl. eexists. split; [reflexivity |]. simpl.
      split; [exact Hs |]. split; [reflexivity |].
      intros Hinit Hrate (block & rest & Hsteps).
      specialize (Hfirst block rest Hu Hinit Hrate Hsteps).
      injection Hfirst as _ ->. simpl in Hemp. discriminate.
    + eexists. split; [reflexivity |]. simpl.
      split; [exact Hs |]. split; [reflexivity |].
      intros Hinit Hrate (block & rest & Hsteps).
      specialize (Hfirst block rest Hu Hinit Hrate Hsteps).
      injection Hfirst as _ ->. simpl. split; [reflexivity | discriminate].
  - specialize (Hs d Hu eq_refl).
    assert (Hno : forall block rest,
               init_failure f = None ->
               0 < three_seconds (stream_format f) ->
               file_steps f = Frame block :: rest -> False).
    { intros block rest Hinit Hrate Hsteps.
      specialize (Hfirst block rest Hu Hinit Hrate Hsteps). discriminate. }
    destruct e as [what |]; eexists; (split; [reflexivity |]); simpl;
      (split; [exact Hs |]); (split; [reflexivity |]);
      intros Hinit Hrate (block & rest & Hsteps);
      exfalso; exact (Hno block rest Hinit Hrate Hsteps).
Qed.

Lemma detect_unsupported_format_witness :
  exists id,
    detect (mkFlacFile None [StreamInfo 44100 1 16] [Frame (silence 4096)] "")
           new_identifier = Returns false id /\
    samples (decoder id) = [] /\
    isMQA_ id = false /\
    error_message_ id = "Unsupported Audio Format: 1 channels, 16 bits"%string.
Proof.
  destruct (detect_unsupported_format
              (mkFlacFile None [StreamInfo 44100 1 16] [Frame (silence 4096)] "")
              eq_refl)
    as (id & Hdet & Hs & Hm & Hmsg).
  exists id. split; [exact Hdet |]. split; [exact Hs |]. split; [exact Hm |].
  destruct Hmsg as [Hmsg _].
  - reflexivity.
  - vm_compute. reflexivity.
  - exists (silence 4096), []. reflexivity.
  - rewrite Hmsg. vm_compute. reflexivity.
Defined.

(** C4 (as stated) fails: a mono stream without audio frames never reaches
    the guard, and [detect] returns false with an empty error message. *)
Lemma detect_unsupported_without_frames :
  unsupported_format (stream_format mono_no_audio) = true /\
  exists id,
    detect mono_no_audio new_identifier = Returns false id /\
    error_message_ id = ""%string.
Proof.
  split; [reflexivity |].
  eexists. split; [vm_compute; reflexivity | reflexivity].
Qed.

(** ** Streams that decode without error *)

Lemma decode_loop_frames (steps : list decode_step) :
  forallb is_frame steps = true ->
  forall ok d,
    unsupported_format d = false ->
    error_message d = ""%string ->
    exists ok' d' tail,
      decode_loop steps ok d = Returns ok' d' /\
      (ok' = true \/ ok' = ok) /\
      error_message d' = ""%string /\
      bps d' = bps d /\
      samples d ++ all_samples steps = samples d' ++ tail.
Proof.
  induction steps as [| st rest IH]; intros Hall ok d Hfmt Herr; cbn [decode_loop].
  - destruct ((decoded_samples d <? three_seconds d)
              && is_empty (error_message d) && negb (end_of_stream d)).
    + exists true, (set_end_of_stream d), []. simpl. auto.
    + exists ok, d, []. simpl. auto.
  - simpl in Hall. apply andb_prop in Hall. destruct Hall as [Hst Hrest].
    destruct st as [block | |]; try discriminate.
    destruct ((decoded_samples d <? three_seconds d)
              && is_empty (error_message d) && negb (end_of_stream d)).
    + simpl. unfold write_callback. rewrite Hfmt.
      edestruct (IH Hrest true) as (ok' & d' & tail & Hloop & Hok & Herr' & Hbps & Hsam);
        [| | rewrite Hloop].
      * exact Hfmt.
      * exact Herr.
      * exists ok', d', tail. simpl in *.
        split; [reflexivity |]. split; [destruct Hok; auto |].
        split; [exact Herr' |]. split; [exact Hbps |].
        rewrite <- Hsam, <- app_assoc. reflexivity.
    + exists ok, d, (all_samples (Frame block :: rest)).
      split; [reflexivity |]. auto.
Qed.

Lemma decode_init_format (f : FlacFile) :
  init_failure f = None ->
  decode_init f new_decoder = (true, stream_format f) /\
  error_message (stream_format f) = ""%string /\
  samples (stream_format f) = [].
Proof.
  intros Hinit. unfold stream_format.
  destruct (decode_init_ok f new_decoder Hinit) as (Hok & Hs & _ & Herr & _).
  destruct (decode_init f new_decoder) as [ok d]. simpl in *. subst ok.
  auto.
Qed.

Lemma sync_atb_prefix (pos k : Z) (l tail : list sample) (i : nat) :
  sync_atb pos k l i = true -> sync_atb pos k (l ++ tail) i = true.
Proof.
  unfold sync_atb. rewrite !forallb_forall. intros H j Hj.
  specialize (H j Hj). apply andb_prop in H. destruct H as [Hle H].
  rewrite Hle. simpl.
  destruct (nth_error l (i - j)) as [s |] eqn:E; [| discriminate].
  rewrite nth_error_app1 by (apply nth_error_Some; congruence).
  rewrite E. exact H.
Qed.

(** C5. A two-channel stream of 16 or 24 bits whose decoder initialises and
    whose steps all deliver frames, with the synchronization word in none of
    the three planes, makes [detect] return false with an empty error
    message and the watermark flag clear. *)
Theorem detect_no_sync_is_no_error (f : FlacFile) :
  init_failure f = None ->
  unsupported_format (stream_format f) = false ->
  forallb is_frame (file_steps f) = true ->
  (forall k i, offset k ->
               ~ sync_at (u32 (bps (stream_format f) - 16)) k
                         (all_samples (file_steps f)) i) ->
  exists id,
    detect f new_identifier = Returns false id /\
    error_message_ id = ""%string /\
    isMQA_ id = false.
Proof.
  intros Hinit Hfmt Hframes Hnosync.
  destruct (decode_init_format f Hinit) as (Hdi & Herr & Hsam).
  destruct (decode_loop_frames (file_steps f) Hframes true (stream_format f) Hfmt Herr)
    as (ok' & d' & tail & Hloop & Hok & Herr' & Hbps & Hpre).
  assert (Hdec : decode f new_decoder = Returns tt d').
  { unfold decode. rewrite Hdi, Hloop, Herr'.
    destruct Hok as [-> | ->]; reflexivity. }
  unfold detect, detect_body. simpl decoder. rewrite Hdec, Herr'. simpl.
  rewrite Hsam in Hpre. simpl in Hpre.
  assert (Hpost := scan_correct (u32 (bps d' - 16)) (samples d')).
  destruct (scan (u32 (bps d' - 16)) (samples d')) as [| k i].
  - eexists. split; [reflexivity |]. split; reflexivity.
  - exfalso. simpl in Hpost. destruct Hpost as (_ & Hk & Hs & _).
    apply (Hnosync k i Hk). unfold sync_at.
    rewrite Hpre, <- Hbps. apply sync_atb_prefix. exact Hs.
Qed.

Lemma no_sync_in_sound (pos : Z) (l : list sample) :
  no_sync_in pos l = true ->
  forall k i, offset k -> ~ sync_at pos k l i.
Proof.
  intros H k i Hk Hs. unfold sync_at in Hs.
  destruct (Nat.le_gt_cases (List.length l) i) as [Hge | Hlt].
  - rewrite sync_atb_out_of_range in Hs by exact Hge. discriminate.
  - unfold no_sync_in in H. rewrite forallb_forall in H.
    assert (Hin : In i (seq 0 (List.length l))) by (apply in_seq; lia).
    specialize (H i Hin).
    apply andb_prop in H. destruct H as [H H2].
    apply andb_prop in H. destruct H as [H0 H1].
    destruct Hk as [-> | [-> | ->]]; rewrite Hs in *; discriminate.
Qed.

Lemma detect_no_sync_is_no_error_witness :
  exists id,
    detect (stereo_file 44100 24 [silence 64; silence 64]) new_identifier
    = Returns false id /\
    error_message_ id = ""%string /\
    isMQA_ id = false.
Proof.
  apply (detect_no_sync_is_no_error (stereo_file 44100 24 [silence 64; silence 64])).
  - reflexivity.
  - reflexivity.
  - reflexivity.
  - apply no_sync_in_sound. vm_compute. reflexivity.
Defined.

(** ** Exceptions stay inside [detect] *)

(** C10. [detect] never leaves through an exception: whenever the guarded
    block raises one, while decoding or while scanning, [detect] returns
    false and its error message is the non-empty text of the handler that
    caught it. *)
Theorem detect_catches_everything (f : FlacFile) (id : Identifier) :
  (forall e id', detect f id <> Throwing e id') /\
  (forall e id',
      detect_body f id = Throwing e id' ->
      exists msg,
        detect f id
        = Returns false (mkIdentifier (decoder id') (isMQA_ id') (isMQAStudio_ id') msg) /\
        msg <> ""%string /\
        msg = match e with
              | StdException what => ("Exception: " ++ what)%string
              | UnknownException => "Unknown exception during detection"%string
              end).
Proof.
  split.
  - intros e id'. unfold detect.
    destruct (detect_body f id) as [b s | [what |] s |]; discriminate.
  - intros e id' Hbody. unfold detect. rewrite Hbody.
    destruct e as [what |]; eexists; (split; [reflexivity |]);
      (split; [simpl; discriminate | reflexivity]).
Qed.

Lemma detect_catches_everything_witness :
  detect_body (mkFlacFile None [StreamInfo 44100 2 16]
                          [Frame (silence 16); Throws (StdException "std::bad_alloc")] "")
              new_identifier
  = Throwing (StdException "std::bad_alloc")
             (mkIdentifier (mkDecoder 44100 2 16 16 (silence 16) "" 0 "" false)
                           false false "") /\
  exists msg,
    detect (mkFlacFile None [StreamInfo 44100 2 16]
                       [Frame (silence 16); Throws (StdException "std::bad_alloc")] "")
           new_identifier
    = Returns false
        (mkIdentifier (mkDecoder 44100 2 16 16 (silence 16) "" 0 "" false)
                      false false msg) /\
    msg <> ""%string /\
    msg = "Exception: std::bad_alloc"%string.
Proof.
  split; [vm_compute; reflexivity |].
  apply (proj2 (detect_catches_everything
                  (mkFlacFile None [StreamInfo 44100 2 16]
                              [Frame (silence 16); Throws (StdException "std::bad_alloc")] "")
                  new_identifier)
               (StdException "std::bad_alloc")
               (mkIdentifier (mkDecoder 44100 2 16 16 (silence 16) "" 0 "" false)
                             false false "")).
  vm_compute. reflexivity.
Defined.

(** ** The payload is read without a bounds check *)

Lemma read_field_past_end (pos k : Z) (l : list sample) (i top : nat) (ms : list nat) :
  forall acc,
    (exists m, In m ms /\ (List.length l <= i + m)%nat) ->
    read_field pos k l i ms top acc = None.
Proof.
  induction ms as [| m ms IH]; intros acc (m0 & Hin & Hlen); [contradiction |].
  cbn [read_field].
  destruct (nth_error l (i + m)) as [cur |] eqn:E; [| reflexivity].
  destruct Hin as [-> | Hin].
  - apply nth_error_None in Hlen. congruence.
  - apply IH. exists m0. split; assumption.
Qed.

(** The rate code read by the first payload loop is a 4-bit value: the
    "Invalid bytecode" error of the rate decoder cannot be reached from
    [detect]. *)
Lemma read_orsf_range (pos k : Z) (l : list sample) (i : nat) (v : Z) :
  read_orsf pos k l i = Some v -> 0 <= v <= 15.
Proof.
  unfold read_orsf. cbn [read_field].
  destruct (nth_error l (i + 3)) as [c3 |]; [| discriminate].
  destruct (nth_error l (i + 4)) as [c4 |]; [| discriminate].
  destruct (nth_error l (i + 5)) as [c5 |]; [| discriminate].
  destruct (nth_error l (i + 6)) as [c6 |]; [| discriminate].
  intros H. injection H as <-.
  destruct (plane_bit_01 pos k c3) as [-> | ->];
    destruct (plane_bit_01 pos k c4) as [-> | ->];
    destruct (plane_bit_01 pos k c5) as [-> | ->];
    destruct (plane_bit_01 pos k c6) as [-> | ->];
    vm_compute; split; discriminate.
Qed.

(** Whenever fewer than 34 samples are stored from the matching sample on,
    the payload loops of [detect] read past the end of the vector. *)
Lemma detect_reads_past_end (f : FlacFile) (id : Identifier) (d : Decoder)
      (k : Z) (i : nat) :
  decode f (decoder id) = Returns tt d ->
  error_message d = ""%string ->
  scan (u32 (bps d - 16)) (samples d) = Match k i ->
  (List.length (samples d) <= i + 33)%nat ->
  detect f id = Undefined.
Proof.
  intros Hdec Herr Hscan Hlen.
  unfold detect, detect_body. rewrite Hdec, Herr, Hscan. simpl negb. cbn iota.
  destruct (read_orsf (u32 (bps d - 16)) k (samples d) i) as [orsf |] eqn:Eo;
    [| reflexivity].
  assert (Hr := read_orsf_range _ _ _ _ _ Eo).
  unfold OriginalSampleRateDecoder.
  destruct (Z.ltb_spec 15 orsf); [lia |].
  unfold read_provenance. rewrite read_field_past_end; [reflexivity |].
  exists 33%nat. split; [simpl; auto 10 | exact Hlen].
Qed.

Lemma read_field_in_range (pos k : Z) (l : list sample) (i top : nat) (ms : list nat) :
  forall acc,
    (forall m, In m ms -> (i + m < List.length l)%nat) ->
    exists v, read_field pos k l i ms top acc = Some v.
Proof.
  induction ms as [| m ms IH]; intros acc Hin; cbn [read_field].
  - exists acc. reflexivity.
  - destruct (nth_error l (i + m)) as [cur |] eqn:E.
    + apply IH. intros m' Hm'. apply Hin. right. exact Hm'.
    + apply nth_error_None in E. specialize (Hin m (or_introl eq_refl)). lia.
Qed.

(** X20. With 33 samples stored beyond the matching one, [detect] returns true:
    the watermark flag is set, the rate is the decoded 4-bit field and the
    studio flag tells whether the 5-bit field exceeds 8. *)
Lemma detect_reads_payload (f : FlacFile) (id : Identifier) (d : Decoder)
      (k : Z) (i : nat) :
  decode f (decoder id) = Returns tt d ->
  error_message d = ""%string ->
  scan (u32 (bps d - 16)) (samples d) = Match k i ->
  (i + 33 < List.length (samples d))%nat ->
  exists orsf rate provenance,
    read_orsf (u32 (bps d - 16)) k (samples d) i = Some orsf /\
    OriginalSampleRateDecoder orsf = Ok rate /\
    read_provenance (u32 (bps d - 16)) k (samples d) i = Some provenance /\
    detect f id
    = Returns true (mkIdentifier (set_original_sample_rate rate d) true
                                 (8 <? provenance) (error_message_ id)).
Proof.
  intros Hdec Herr Hscan Hlen.
  destruct (read_field_in_range (u32 (bps d - 16)) k (samples d) i 6
                                [3; 4; 5; 6]%nat 0) as [orsf Ho].
  { intros m Hm. simpl in Hm. lia. }
  destruct (read_field_in_range (u32 (bps d - 16)) k (samples d) i 33
                                [29; 30; 31; 32; 33]%nat 0) as [prov Hp].
  { intros m Hm. simpl in Hm. lia. }
  assert (Hr := read_orsf_range _ _ _ _ _ Ho).
  assert (Hrate : exists rate, OriginalSampleRateDecoder orsf = Ok rate).
  { unfold OriginalSampleRateDecoder. destruct (Z.ltb_spec 15 orsf); [lia |].
    eexists. reflexivity. }
  destruct Hrate as [rate Hrate].
  exists orsf, rate, prov.
  split; [exact Ho |]. split; [exact Hrate |]. split; [exact Hp |].
  unfold detect, detect_body. rewrite Hdec, Herr, Hscan. simpl negb. cbn iota.
  unfold read_orsf in *. rewrite Ho, Hrate.
  unfold read_provenance in *. simpl samples. rewrite Hp. reflexivity.
Qed.

(** C2 fails on the code: on a stream that ends ten samples after the
    synchronization word, [detect] does not return; its first payload loop
    dereferences [&s + 3 .. &s + 6] and the second [&s + 29 .. &s + 33]
    beyond the last stored sample. *)
Theorem detect_truncated_stream_undefined :
  scan 0 (sync_samples 0 ++ silence 10) = Match 0 35 /\
  List.length (sync_samples 0 ++ silence 10) = 46%nat /\
  read_provenance 0 0 (sync_samples 0 ++ silence 10) 35 = None /\
  detect truncated_after_sync new_identifier = Undefined.
Proof.
  split; [vm_compute; reflexivity |].
  split; [reflexivity |].
  split; [vm_compute; reflexivity |].
  apply (detect_reads_past_end truncated_after_sync new_identifier
           (mkDecoder 44100 2 16 46 (sync_samples 0 ++ silence 10) "" 0 "" true)
           0 35).
  - vm_compute. reflexivity.
  - reflexivity.
  - vm_compute. reflexivity.
  - simpl. lia.
Qed.

(** * The batch driver *)

(** ** Counters *)

Lemma same_counters_refl (s : State) : same_counters s s.
Proof. split; reflexivity. Qed.



Lemma quiet_throw {A : Type} (e : exn) : quiet (@throw A e).
Proof. intros s. apply same_counters_refl. Qed.



Section DriverFacts.

Variable cfg : Config.
Variable env : Env.







End DriverFacts.

Section ProcessFile.

Variable cfg : Config.
Variable env : Env.










End ProcessFile.

(** ** The tag writer *)

Ltac step_env env :=
  match goal with
  | |- context [match throws env ?a with _ => _ end] =>
      destruct (throws env a) as [[? |] |] eqn:?
  | |- context [if fails env ?a then _ else _] =>
      destruct (fails env a) eqn:?
  end.

Lemma tagFile_tag_step (cfg : Config) (env : Env) (file : string) (rate : Z)
      (s s' : State) :
  final_state (tagFile cfg env file rate s) = Some s' ->
  tag_step file rate (disk s) (disk s').
Proof.
  unfold tagFile.
  destruct (dry_run cfg) eqn:Hdry.
  - unfold log_message, bind, raising, modify, ret.
    step_env env; destruct (verbose_logging cfg); simpl;
      intros H; injection H as <-; left; reflexivity.
  - unfold try_catch, chain_read. unfold bind at 1. unfold bind at 1.
    unfold raising at 1.
    assert (Hlog : forall at_ reason st st',
               final_state (log_skip cfg env at_ file reason st) = Some st' ->
               disk st' = disk st).
    { intros at_ reason st st'. unfold log_skip, bind, raising, modify.
      destruct (throws env at_); simpl; intros H; injection H as <-; reflexivity. }
    assert (Hhandlers : forall e st,
               disk st = disk s ->
               final_state
                 (match e with
                  | StdException what =>
                      log_skip cfg env LogTagError file ("Tagging error: " ++ what) st
                  | UnknownException =>
                      log_skip cfg env LogTagError file "Unknown tagging error" st
                  end) = Some s' ->
               tag_step file rate (disk s) (disk s')).
    { intros e st Hst H. left. rewrite <- Hst.
      destruct e; apply Hlog in H; exact H. }
    destruct (throws env ChainRead) as [e |] eqn:Hcr.
    { intros H. apply (Hhandlers e s eq_refl). destruct e; exact H. }
    destruct (if fails env ChainRead then None else disk_get file (disk s))
      as [blocks |] eqn:Hread.
    2: { unfold log_skip, bind, raising, modify.
         destruct (throws env LogChainRead) as [e |]; simpl.
         - intros H. apply (Hhandlers e s eq_refl). destruct e; exact H.
         - intros H. injection H as <-. left. reflexivity. }
    assert (Hget : disk_get file (disk s) = Some blocks).
    { destruct (fails env ChainRead); [discriminate | exact Hread]. }
    cbv zeta. unfold bind at 1. unfold comment_block.
    destruct (find_vorbis blocks) as [comments |] eqn:Hfind.
    + unfold ret at 1.
      destruct (ensure_tags rate comments) as [comments' modified] eqn:Hens.
      destruct modified.
      * destruct (fails env ChainWrite).
        -- unfold log_skip, bind, raising, modify.
           destruct (throws env LogWrite) as [e |]; simpl.
           ++ intros H. apply (Hhandlers e s eq_refl). destruct e; exact H.
           ++ intros H. injection H as <-. left. reflexivity.
        -- unfold bind, chain_write, modify, log_message, raising, ret.
           assert (Hstep : tag_step file rate (disk s)
                                    (disk_put file
                                       (prepare_for_write (chain_length blocks)
                                          (set_vorbis comments' blocks))
                                       (disk s))).
           { right. exists blocks, blocks, comments, comments'.
             split; [exact Hget |]. split; [left; auto |]. split; [exact Hens | reflexivity]. }
           destruct (throws env LogTagged) as [e |]; simpl.
           ++ unfold log_skip, bind, raising, modify.
              destruct e; destruct (throws env LogTagError); simpl;
                intros H; injection H as <-; exact Hstep.
           ++ destruct (verbose_logging cfg); simpl;
                intros H; injection H as <-; exact Hstep.
      * unfold ret. simpl. intros H. injection H as <-. left. reflexivity.
    + unfold bind at 1. unfold raising at 1.
      destruct (throws env NewBlock) as [e |] eqn:Hnew.
      { intros H. apply (Hhandlers e s eq_refl). destruct e; exact H. }
      destruct (fails env InsertBlock).
      * unfold log_skip, bind, raising, modify, ret.
        destruct (throws env LogInsert) as [e |]; simpl.
        -- intros H. apply (Hhandlers e s eq_refl). destruct e; exact H.
        -- intros H. injection H as <-. left. reflexivity.
      * unfold ret at 1.
        destruct (ensure_tags rate []) as [comments' modified] eqn:Hens.
        destruct modified.
        -- destruct (fails env ChainWrite).
           ++ unfold log_skip, bind, raising, modify.
              destruct (throws env LogWrite) as [e |]; simpl.
              ** intros H. apply (Hhandlers e s eq_refl). destruct e; exact H.
              ** intros H. injection H as <-. left. reflexivity.
           ++ unfold bind, chain_write, modify, log_message, raising, ret.
              assert (Hstep : tag_step file rate (disk s)
                                (disk_put file
                                   (prepare_for_write (chain_length blocks)
                                      (set_vorbis comments' (blocks ++ [VORBIS_COMMENT []])))
                                   (disk s))).
              { right. exists blocks, (blocks ++ [VORBIS_COMMENT []]), [], comments'.
                split; [exact Hget |]. split; [right; auto |].
                split; [exact Hens | reflexivity]. }
              destruct (throws env LogTagged) as [e |]; simpl.
              ** unfold log_skip, bind, raising, modify.
                 destruct e; destruct (throws env LogTagError); simpl;
                   intros H; injection H as <-; exact Hstep.
              ** destruct (verbose_logging cfg); simpl;
                   intros H; injection H as <-; exact Hstep.
        -- unfold ret. simpl. intros H. injection H as <-. left. reflexivity.
Qed.

Lemma find_from_none (name : string) (comments : list entry) :
  forall index, 0 <= index ->
    (find_from name comments index =? -1) = negb (has_entry name comments).
Proof.
  induction comments as [| e rest IH]; intros index Hi; simpl.
  - reflexivity.
  - destruct (field_matches name e); simpl.
    + apply Z.eqb_neq. lia.
    + apply IH. lia.
Qed.

Lemma find_entry_from_none (name : string) (comments : list entry) :
  (find_entry_from 0 name comments =? -1) = negb (has_entry name comments).
Proof. unfold find_entry_from. simpl. apply find_from_none. lia. Qed.

Lemma has_entry_snoc (name : string) (comments : list entry) (e : entry) :
  has_entry name (comments ++ [e]) = has_entry name comments || field_matches name e.
Proof. unfold has_entry. rewrite existsb_app. simpl. rewrite orb_false_r. reflexivity. Qed.

Lemma count_entries_snoc (name : string) (comments : list entry) (e : entry) :
  count_entries name (comments ++ [e])
  = (count_entries name comments + if field_matches name e then 1 else 0)%nat.
Proof.
  unfold count_entries. rewrite filter_app, length_app. simpl.
  destruct (field_matches name e); reflexivity.
Qed.

Lemma has_entry_count (name : string) (comments : list entry) :
  has_entry name comments = negb (count_entries name comments =? 0)%nat.
Proof.
  unfold has_entry, count_entries.
  induction comments as [| e rest IH]; simpl; [reflexivity |].
  destruct (field_matches name e); simpl; [reflexivity | exact IH].
Qed.

Lemma encoder_matches_encoder (v : string) :
  field_matches "MQAENCODER" ("MQAENCODER"%string, v) = true.
Proof. reflexivity. Qed.

Lemma encoder_matches_rate (v : string) :
  field_matches "MQAENCODER" ("ORIGINALSAMPLERATE"%string, v) = false.
Proof. reflexivity. Qed.

Lemma rate_matches_encoder (v : string) :
  field_matches "ORIGINALSAMPLERATE" ("MQAENCODER"%string, v) = false.
Proof. reflexivity. Qed.

Lemma rate_matches_rate (v : string) :
  field_matches "ORIGINALSAMPLERATE" ("ORIGINALSAMPLERATE"%string, v) = true.
Proof. reflexivity. Qed.

(** The two checks of [tagFile], by what the comment block holds. *)
Lemma ensure_tags_cases (rate : Z) (comments : list entry) :
  ensure_tags rate comments =
  let with_encoder :=
    if has_entry "MQAENCODER" comments then comments
    else comments ++ [("MQAENCODER"%string, MQAENCODER_value)] in
  if (0 <? rate) && negb (has_entry "ORIGINALSAMPLERATE" comments)
  then (with_encoder ++ [("ORIGINALSAMPLERATE"%string, to_string rate)], true)
  else (with_encoder, negb (has_entry "MQAENCODER" comments)).
Proof.
  unfold ensure_tags. rewrite find_entry_from_none.
  destruct (has_entry "MQAENCODER" comments) eqn:H1; cbn [negb].
  - rewrite find_entry_from_none. reflexivity.
  - rewrite find_entry_from_none, has_entry_snoc.
    rewrite rate_matches_encoder, orb_false_r. reflexivity.
Qed.

Lemma ensure_tags_present (rate : Z) (comments : list entry) :
  has_entry "MQAENCODER" comments = true ->
  (0 < rate -> has_entry "ORIGINALSAMPLERATE" comments = true) ->
  ensure_tags rate comments = (comments, false).
Proof.
  intros H1 H2. rewrite ensure_tags_cases, H1. cbn zeta.
  destruct (Z.ltb_spec 0 rate) as [Hr | Hr]; cbn [andb negb]; [| reflexivity].
  rewrite (H2 Hr). reflexivity.
Qed.

Lemma ensure_tags_result (rate : Z) (comments comments' : list entry) (modified : bool) :
  ensure_tags rate comments = (comments', modified) ->
  has_entry "MQAENCODER" comments' = true /\
  (0 < rate -> has_entry "ORIGINALSAMPLERATE" comments' = true) /\
  count_entries "MQAENCODER" comments'
  = Nat.max 1 (count_entries "MQAENCODER" comments) /\
  count_entries "ORIGINALSAMPLERATE" comments'
  = (if 0 <? rate then Nat.max 1 (count_entries "ORIGINALSAMPLERATE" comments)
     else count_entries "ORIGINALSAMPLERATE" comments).
Proof.
  rewrite ensure_tags_cases. cbn zeta.
  assert (H1 := has_entry_count "MQAENCODER" comments).
  assert (H2 := has_entry_count "ORIGINALSAMPLERATE" comments).
  destruct (has_entry "MQAENCODER" comments) eqn:E1;
    destruct (has_entry "ORIGINALSAMPLERATE" comments) eqn:E2;
    destruct (Z.ltb_spec 0 rate) as [Hr | Hr]; cbn [andb negb];
    intros H; injection H as <- <-;
    rewrite ?has_entry_snoc, ?count_entries_snoc, ?E1, ?E2;
    rewrite ?encoder_matches_encoder, ?encoder_matches_rate,
      ?rate_matches_encoder, ?rate_matches_rate;
    cbn [orb];
    destruct (Nat.eqb_spec (count_entries "MQAENCODER" comments) 0);
    destruct (Nat.eqb_spec (count_entries "ORIGINALSAMPLERATE" comments) 0);
    try discriminate;
    (repeat split; try reflexivity; try lia).
Qed.

(** Running the checks on their own result changes nothing. *)
Lemma ensure_tags_idempotent (rate : Z) (comments comments' : list entry)
      (modified : bool) :
  ensure_tags rate comments = (comments', modified) ->
  ensure_tags rate comments' = (comments', false).
Proof.
  intros H. destruct (ensure_tags_result _ _ _ _ H) as (H1 & H2 & _).
  apply ensure_tags_present; assumption.
Qed.

(** *** Chains *)

Lemma no_vorbis_block (name : string) (blocks : list block) :
  filter is_vorbis blocks = [] ->
  find_vorbis blocks = None /\ tag_count name blocks = 0%nat /\
  tag_present name blocks = false.
Proof.
  induction blocks as [| [comments | t | n] rest IH]; simpl; intros H.
  - auto.
  - discriminate.
  - apply IH, H.
  - apply IH, H.
Qed.

Lemma find_vorbis_none (blocks : list block) :
  find_vorbis blocks = None -> filter is_vorbis blocks = [].
Proof.
  induction blocks as [| [comments | t | n] rest IH]; simpl; intros H.
  - reflexivity.
  - discriminate.
  - apply IH, H.
  - apply IH, H.
Qed.

Lemma find_set_vorbis (comments' : list entry) (blocks : list block) :
  find_vorbis blocks <> None ->
  find_vorbis (set_vorbis comments' blocks) = Some comments'.
Proof.
  induction blocks as [| [comments | t | n] rest IH]; simpl; intros H.
  - contradiction.
  - reflexivity.
  - apply IH, H.
  - apply IH, H.
Qed.

Lemma find_vorbis_append (blocks : list block) :
  find_vorbis blocks = None ->
  find_vorbis (blocks ++ [VORBIS_COMMENT []]) = Some [].
Proof.
  induction blocks as [| [comments | t | n] rest IH]; simpl; intros H.
  - reflexivity.
  - discriminate.
  - apply IH, H.
  - apply IH, H.
Qed.

(** In a chain with one comment block, the tags of the file are the entries
    of the block that [tagFile] works on. *)
Lemma single_block_tags (name : string) (blocks : list block) (comments : list entry) :
  single_comment_block blocks ->
  find_vorbis blocks = Some comments ->
  tag_count name blocks = count_entries name comments /\
  tag_present name blocks = has_entry name comments /\
  forall comments',
    tag_count name (set_vorbis comments' blocks) = count_entries name comments'.
Proof.
  unfold single_comment_block.
  induction blocks as [| [c | t | n] rest IH]; simpl; intros Hs Hf.
  - discriminate.
  - injection Hf as ->.
    assert (Hrest : filter is_vorbis rest = []).
    { destruct (filter is_vorbis rest); [reflexivity | simpl in Hs; lia]. }
    destruct (no_vorbis_block name rest Hrest) as (_ & Hc & Hp).
    rewrite Hc, Hp, orb_false_r. repeat split; try lia.
  - apply IH; assumption.
  - apply IH; assumption.
Qed.

Lemma appended_block_tags (name : string) (blocks : list block) (comments' : list entry) :
  find_vorbis blocks = None ->
  tag_count name blocks = 0%nat /\
  tag_count name (set_vorbis comments' (blocks ++ [VORBIS_COMMENT []]))
  = count_entries name comments'.
Proof.
  induction blocks as [| [c | t | n] rest IH]; simpl; intros Hf.
  - split; lia.
  - discriminate.
  - apply IH, Hf.
  - apply IH, Hf.
Qed.

Lemma disk_get_put (file : string) (blocks : list block) (d : disk_files) :
  disk_get file (disk_put file blocks d) = Some blocks.
Proof.
  induction d as [| [p old] rest IH]; simpl.
  - rewrite String.eqb_refl. reflexivity.
  - destruct (String.eqb p file) eqn:E; simpl; rewrite E; [reflexivity | exact IH].
Qed.

(** *** The padding at the tail of a chain *)

Lemma tail_padding_split (blocks : list block) (n : Z) :
  tail_padding blocks = Some n ->
  blocks = removelast blocks ++ [PADDING n].
Proof.
  unfold tail_padding. intros H.
  destruct (rev blocks) as [| b r] eqn:E; [discriminate |].
  destruct b; try discriminate. injection H as ->.
  assert (Hb : blocks = rev r ++ [PADDING n]).
  { rewrite <- (rev_involutive blocks), E. reflexivity. }
  rewrite Hb at 2. rewrite removelast_last. exact Hb.
Qed.


Lemma find_vorbis_padding (front : list block) (n : Z) :
  find_vorbis (front ++ [PADDING n]) = find_vorbis front.
Proof. induction front as [| [c | t | m] rest IH]; simpl; auto. Qed.

Lemma tag_count_padding (name : string) (front : list block) (n : Z) :
  tag_count name (front ++ [PADDING n]) = tag_count name front.
Proof. induction front as [| [c | t | m] rest IH]; simpl; auto. Qed.


(** What [write] can do to a chain: store it as it is, add a PADDING block
    behind it, or replace or drop the PADDING block at its tail. *)
Lemma prepare_for_write_cases (initial_length : Z) (blocks : list block) :
  prepare_for_write initial_length blocks = blocks \/
  (exists n, prepare_for_write initial_length blocks = blocks ++ [PADDING n]) \/
  exists front n,
    blocks = front ++ [PADDING n] /\
    (prepare_for_write initial_length blocks = front \/
     exists n', prepare_for_write initial_length blocks = front ++ [PADDING n']).
Proof.
  unfold prepare_for_write.
  destruct (tail_padding blocks) as [n |] eqn:E.
  - assert (Hsplit := tail_padding_split blocks n E).
    destruct (chain_length blocks <? initial_length).
    + right. right. exists (removelast blocks), n. split; [exact Hsplit |].
      right. eexists. reflexivity.
    + destruct (initial_length <? chain_length blocks); [| left; reflexivity].
      cbv zeta.
      destruct (n + HEADER_LENGTH =? chain_length blocks - initial_length).
      * right. right. exists (removelast blocks), n. split; [exact Hsplit |].
        left. reflexivity.
      * destruct (chain_length blocks - initial_length <=? n); [| left; reflexivity].
        right. right. exists (removelast blocks), n. split; [exact Hsplit |].
        right. eexists. reflexivity.
  - destruct (chain_length blocks + HEADER_LENGTH <=? initial_length).
    + right. left. eexists. reflexivity.
    + left. reflexivity.
Qed.

Lemma find_vorbis_prepare (initial_length : Z) (blocks : list block) :
  find_vorbis (prepare_for_write initial_length blocks) = find_vorbis blocks.
Proof.
  destruct (prepare_for_write_cases initial_length blocks)
    as [-> | [[n ->] | (front & n & Hb & [-> | [n' ->]])]].
  - reflexivity.
  - apply find_vorbis_padding.
  - rewrite Hb, find_vorbis_padding. reflexivity.
  - rewrite Hb, !find_vorbis_padding. reflexivity.
Qed.

Lemma tag_count_prepare (name : string) (initial_length : Z) (blocks : list block) :
  tag_count name (prepare_for_write initial_length blocks) = tag_count name blocks.
Proof.
  destruct (prepare_for_write_cases initial_length blocks)
    as [-> | [[n ->] | (front & n & Hb & [-> | [n' ->]])]].
  - reflexivity.
  - apply tag_count_padding.
  - rewrite Hb, tag_count_padding. reflexivity.
  - rewrite Hb, !tag_count_padding. reflexivity.
Qed.

(** After a call that wrote the file, the block [tagFile] works on holds
    both tags and the checks find nothing to add. *)
Lemma tag_step_settles (file : string) (rate : Z) (d d' : disk_files) :
  tag_step file rate d d' -> d' <> d ->
  exists blocks' comments',
    disk_get file d' = Some blocks' /\
    find_vorbis blocks' = Some comments' /\
    ensure_tags rate comments' = (comments', false).
Proof.
  intros [-> | (blocks & blocks0 & comments & comments' & Hget & Hsrc & Hens & ->)] Hne;
    [contradiction |].
  exists (prepare_for_write (chain_length blocks) (set_vorbis comments' blocks0)),
    comments'.
  split; [apply disk_get_put |].
  split; [| eapply ensure_tags_idempotent; exact Hens].
  rewrite find_vorbis_prepare. apply find_set_vorbis.
  destruct Hsrc as [[Hf ->] | (Hf & -> & _)].
  - rewrite Hf. discriminate.
  - rewrite (find_vorbis_append blocks Hf). discriminate.
Qed.

Lemma tag_step_unmodified (file : string) (rate : Z) (d d' : disk_files)
      (blocks : list block) (comments : list entry) :
  tag_step file rate d d' ->
  disk_get file d = Some blocks ->
  find_vorbis blocks = Some comments ->
  ensure_tags rate comments = (comments, false) ->
  d' = d.
Proof.
  intros [-> | (blocks1 & blocks0 & comments1 & comments' & Hget & Hsrc & Hens & ->)]
         Hg Hf He; [reflexivity |].
  rewrite Hg in Hget. injection Hget as <-.
  destruct Hsrc as [[Hf1 ->] | (Hf1 & _)]; rewrite Hf in Hf1; [| discriminate].
  injection Hf1 as <-. rewrite He in Hens. discriminate.
Qed.

Lemma tagFile_already_tagged (cfg : Config) (env : Env) (file : string) (rate : Z)
      (s : State) (blocks : list block) (comments : list entry) :
  dry_run cfg = false ->
  fails env ChainRead = false ->
  throws env ChainRead = None ->
  disk_get file (disk s) = Some blocks ->
  find_vorbis blocks = Some comments ->
  ensure_tags rate comments = (comments, false) ->
  tagFile cfg env file rate s = Returns tt s.
Proof.
  intros Hdry Hfail Hthrow Hget Hfind Hens.
  unfold tagFile. rewrite Hdry.
  unfold try_catch, chain_read, bind, raising. rewrite Hthrow, Hfail, Hget.
  unfold comment_block. rewrite Hfind. unfold ret. rewrite Hens. reflexivity.
Qed.

Lemma tag_step_counts (file : string) (rate : Z) (s s' : State) (blocks : list block) :
  tag_step file rate (disk s) (disk s') ->
  disk_get file (disk s) = Some blocks ->
  single_comment_block blocks ->
  (file_tag_count "MQAENCODER" file s'
   <= Nat.max 1 (file_tag_count "MQAENCODER" file s))%nat /\
  (file_tag_count "ORIGINALSAMPLERATE" file s'
   <= Nat.max 1 (file_tag_count "ORIGINALSAMPLERATE" file s))%nat /\
  (rate <= 0 ->
   file_tag_count "ORIGINALSAMPLERATE" file s'
   = file_tag_count "ORIGINALSAMPLERATE" file s).
Proof.
  intros Hstep Hget Hsingle. unfold file_tag_count.
  destruct Hstep as [-> | (blocks1 & blocks0 & comments & comments' & Hget1 & Hsrc & Hens & ->)].
  - rewrite Hget. repeat split; lia.
  - rewrite disk_get_put, Hget, !tag_count_prepare.
    rewrite Hget in Hget1. injection Hget1 as <-.
    destruct (ensure_tags_result _ _ _ _ Hens) as (_ & _ & Hc1 & Hc2).
    assert (Hrate : rate <= 0 -> (0 <? rate) = false) by (intros; apply Z.ltb_ge; lia).
    destruct Hsrc as [[Hf ->] | (Hf & -> & ->)].
    + destruct (single_block_tags "MQAENCODER" blocks comments Hsingle Hf)
        as (T1 & _ & S1).
      destruct (single_block_tags "ORIGINALSAMPLERATE" blocks comments Hsingle Hf)
        as (T2 & _ & S2).
      rewrite S1, S2, T1, T2, Hc1, Hc2.
      split; [lia |]. split.
      * destruct (0 <? rate); lia.
      * intros Hr. rewrite (Hrate Hr). reflexivity.
    + destruct (appended_block_tags "MQAENCODER" blocks comments' Hf) as (T1 & S1).
      destruct (appended_block_tags "ORIGINALSAMPLERATE" blocks comments' Hf)
        as (T2 & S2).
      rewrite S1, S2, T1, T2, Hc1, Hc2.
      change (count_entries "ORIGINALSAMPLERATE" []) with 0%nat.
      change (count_entries "MQAENCODER" []) with 0%nat.
      split; [lia |]. split.
      * destruct (0 <? rate); lia.
      * intros Hr. rewrite (Hrate Hr). reflexivity.
Qed.

(** C8. [tagFile] is idempotent.  On a file that already carries the
    MQAENCODER tag and, for a positive rate, the ORIGINALSAMPLERATE tag, a
    call leaves the disk as it is, and outside dry-run mode with a readable
    chain it leaves the whole state as it is.  When a call has written the
    file, a second call writes nothing.  No call leaves more than one entry
    of either name where there was none or one, and with rate 0 the number
    of ORIGINALSAMPLERATE entries does not change. *)
Theorem tagFile_idempotent (cfg : Config) (env : Env) (file : string) (rate : Z)
        (s s' : State) (blocks : list block) :
  disk_get file (disk s) = Some blocks ->
  single_comment_block blocks ->
  final_state (tagFile cfg env file rate s) = Some s' ->
  (tag_present "MQAENCODER" blocks = true ->
   (0 < rate -> tag_present "ORIGINALSAMPLERATE" blocks = true) ->
   disk s' = disk s /\
   (dry_run cfg = false -> fails env ChainRead = false ->
    throws env ChainRead = None -> s' = s)) /\
  (forall env2 s'',
      final_state (tagFile cfg env2 file rate s') = Some s'' ->
      disk s' <> disk s -> disk s'' = disk s') /\
  (file_tag_count "MQAENCODER" file s'
   <= Nat.max 1 (file_tag_count "MQAENCODER" file s))%nat /\
  (file_tag_count "ORIGINALSAMPLERATE" file s'
   <= Nat.max 1 (file_tag_count "ORIGINALSAMPLERATE" file s))%nat /\
  (rate <= 0 ->
   file_tag_count "ORIGINALSAMPLERATE" file s'
   = file_tag_count "ORIGINALSAMPLERATE" file s).
Proof.
  intros Hget Hsingle Hrun.
  assert (Hstep := tagFile_tag_step cfg env file rate s s' Hrun).
  split; [| split; [| exact (tag_step_counts file rate s s' blocks Hstep Hget Hsingle)]].
  - intros Henc Hrate.
    assert (Hfound : exists comments, find_vorbis blocks = Some comments).
    { destruct (find_vorbis blocks) as [comments |] eqn:Hf; [eauto |].
      destruct (no_vorbis_block "MQAENCODER" blocks (find_vorbis_none blocks Hf))
        as (_ & _ & Hp).
      rewrite Hp in Henc. discriminate. }
    destruct Hfound as [comments Hf].
    destruct (single_block_tags "MQAENCODER" blocks comments Hsingle Hf) as (_ & P1 & _).
    destruct (single_block_tags "ORIGINALSAMPLERATE" blocks comments Hsingle Hf)
      as (_ & P2 & _).
    assert (Hens : ensure_tags rate comments = (comments, false)).
    { apply ensure_tags_present; [rewrite <- P1; exact Henc |].
      intros Hr. rewrite <- P2. exact (Hrate Hr). }
    split.
    + exact (tag_step_unmodified file rate _ _ blocks comments Hstep Hget Hf Hens).
    + intros Hdry Hfail Hthrow.
      rewrite (tagFile_already_tagged cfg env file rate s blocks comments
                 Hdry Hfail Hthrow Hget Hf Hens) in Hrun.
      simpl in Hrun. injection Hrun as <-. reflexivity.
  - intros env2 s'' Hrun2 Hne.
    destruct (tag_step_settles file rate _ _ Hstep Hne)
      as (blocks' & comments' & Hget' & Hf' & Hens').
    assert (Hstep2 := tagFile_tag_step cfg env2 file rate s' s'' Hrun2).
    exact (tag_step_unmodified file rate _ _ blocks' comments' Hstep2 Hget' Hf' Hens').
Qed.

Lemma tagFile_idempotent_witness :
  exists s',
    final_state (tagFile plain calm "a/mqa.flac" 88200 tagged_state) = Some s' /\
    s' = tagged_state.
Proof.
  exists tagged_state. split; [reflexivity |].
  assert (Hsingle : single_comment_block tagged_chain)
    by (unfold single_comment_block; simpl; lia).
  destruct (tagFile_idempotent plain calm "a/mqa.flac" 88200
                               tagged_state tagged_state tagged_chain
                               eq_refl Hsingle eq_refl) as [H _].
  destruct (H eq_refl (fun _ => eq_refl)) as [_ Hs].
  exact (Hs eq_refl eq_refl eq_refl).
Defined.

(** Tagging an untagged file twice: the first call writes both entries into
    a new comment block, the second call returns the state it was given. *)
Example tagFile_twice :
  exists s1,
    tagFile plain calm "a/mqa.flac" 88200 (initial_state three_files) = Returns tt s1 /\
    disk_get "a/mqa.flac" (disk s1)
    = Some [OTHER_BLOCK 4;
            VORBIS_COMMENT [("MQAENCODER"%string, MQAENCODER_value);
                            ("ORIGINALSAMPLERATE"%string, "88200"%string)]] /\
    tagFile plain calm "a/mqa.flac" 88200 s1 = Returns tt s1.
Proof. eexists. split; [reflexivity |]. split; reflexivity. Qed.

(** ** Counting the tasks *)








(** ** The file loop *)









(** * Further properties of the detector *)

(** ** What a result of the scanning loop means *)

Lemma sync_at_late (pos k : Z) (l : list sample) (i : nat) :
  sync_atb pos k l i = true -> (35 <= i < List.length l)%nat.
Proof.
  intros H. split.
  - unfold sync_atb in H. rewrite forallb_forall in H.
    assert (Hin : In 35%nat (seq 0 36)) by (apply in_seq; lia).
    specialize (H _ Hin). apply andb_prop in H. destruct H as [H _].
    apply Nat.leb_le in H. exact H.
  - destruct (Nat.le_gt_cases (List.length l) i) as [Hge | Hlt]; [| exact Hlt].
    rewrite sync_atb_out_of_range in H by exact Hge. discriminate.
Qed.

(** X3. The loop never reports a word that is not there and never misses
    one: it ends without a match exactly when the word lies in none of the
    three planes, and a match at offset [k] on sample [i] means that the
    word ends there in plane [k], at least 36 samples into the stream. *)
Theorem scan_sound_and_complete (pos : Z) (l : list sample) :
  (scan pos l = NoMatch <-> forall k i, offset k -> ~ sync_at pos k l i) /\
  (forall k i, scan pos l = Match k i ->
               offset k /\ sync_at pos k l i /\ (35 <= i < List.length l)%nat).
Proof.
  assert (Hpost := scan_correct pos l).
  split; [split |].
  - intros Hno k i Hk Hs. rewrite Hno in Hpost. simpl in Hpost.
    unfold sync_at in Hs. rewrite Hpost in Hs by (auto; lia). discriminate.
  - intros Hnone. destruct (scan pos l) as [| k i]; [reflexivity |].
    simpl in Hpost. destruct Hpost as (_ & Hk & Hs & _).
    exfalso. exact (Hnone k i Hk Hs).
  - intros k i Hm. rewrite Hm in Hpost. simpl in Hpost.
    destruct Hpost as (_ & Hk & Hs & _).
    split; [exact Hk |]. split; [exact Hs |]. apply (sync_at_late pos k l i Hs).
Qed.

(** ** The payload fields *)

(** X1. The rate code is read from the samples 3 to 6 after the match, the
    first of them giving bit 3, and the provenance field from the samples 29
    to 33, the first giving bit 4. *)
Theorem payload_field_layout (pos k : Z) (l : list sample) (i : nat)
        (c3 c4 c5 c6 c29 c30 c31 c32 c33 : sample) :
  nth_error l (i + 3) = Some c3 -> nth_error l (i + 4) = Some c4 ->
  nth_error l (i + 5) = Some c5 -> nth_error l (i + 6) = Some c6 ->
  nth_error l (i + 29) = Some c29 -> nth_error l (i + 30) = Some c30 ->
  nth_error l (i + 31) = Some c31 -> nth_error l (i + 32) = Some c32 ->
  nth_error l (i + 33) = Some c33 ->
  read_orsf pos k l i
  = Some (8 * plane_bit pos k c3 + 4 * plane_bit pos k c4
          + 2 * plane_bit pos k c5 + plane_bit pos k c6) /\
  read_provenance pos k l i
  = Some (16 * plane_bit pos k c29 + 8 * plane_bit pos k c30
          + 4 * plane_bit pos k c31 + 2 * plane_bit pos k c32
          + plane_bit pos k c33).
Proof.
  intros H3 H4 H5 H6 H29 H30 H31 H32 H33.
  unfold read_orsf, read_provenance. cbn [read_field].
  rewrite H3, H4, H5, H6, H29, H30, H31, H32, H33.
  split.
  - destruct (plane_bit_01 pos k c3) as [-> | ->];
      destruct (plane_bit_01 pos k c4) as [-> | ->];
      destruct (plane_bit_01 pos k c5) as [-> | ->];
      destruct (plane_bit_01 pos k c6) as [-> | ->]; reflexivity.
  - destruct (plane_bit_01 pos k c29) as [-> | ->];
      destruct (plane_bit_01 pos k c30) as [-> | ->];
      destruct (plane_bit_01 pos k c31) as [-> | ->];
      destruct (plane_bit_01 pos k c32) as [-> | ->];
      destruct (plane_bit_01 pos k c33) as [-> | ->]; reflexivity.
Qed.

Lemma payload_field_layout_witness :
  read_orsf 0 0 (sync_samples 0 ++ silence 40) 35 = Some 0 /\
  read_provenance 0 0 (sync_samples 0 ++ silence 40) 35 = Some 0.
Proof.
  exact (payload_field_layout 0 0 (sync_samples 0 ++ silence 40) 35
           (0, 0) (0, 0) (0, 0) (0, 0) (0, 0) (0, 0) (0, 0) (0, 0) (0, 0)
           eq_refl eq_refl eq_refl eq_refl eq_refl eq_refl eq_refl eq_refl eq_refl).
Defined.

(** ** What [detect] leaves in the object *)

Lemma decoder_in_table (c : Z) :
  0 <= c <= 15 ->
  exists rate, OriginalSampleRateDecoder c = Ok rate /\ In rate rate_table /\ 0 < rate.
Proof.
  intros Hc. assert (Hin := small_code_cases c Hc). simpl in Hin.
  repeat (destruct Hin as [<- | Hin];
          [eexists; split; [vm_compute; reflexivity |];
           split; [unfold rate_table; simpl; tauto | reflexivity] |]).
  contradiction.
Qed.

Lemma decode_init_keeps_rate (f : FlacFile) (d : Decoder) :
  original_sample_rate (snd (decode_init f d)) = original_sample_rate d.
Proof.
  unfold decode_init. destruct (init_failure f); simpl; [reflexivity |].
  generalize dependent d.
  induction (file_metadata f) as [| m ms IH]; intros d; simpl; [reflexivity |].
  rewrite IH. destruct m; reflexivity.
Qed.

Lemma decode_keeps_rate (f : FlacFile) (d0 d : Decoder) :
  final_state (decode f d0) = Some d ->
  original_sample_rate d = original_sample_rate d0.
Proof.
  intros Hd.
  assert (H := decode_loop_invariant
                 (fun d => original_sample_rate d = original_sample_rate d0)
                 (file_steps f)).
  specialize (H (fun d H => H)).
  assert (Hstep : forall st d1, In st (file_steps f) ->
             original_sample_rate d1 = original_sample_rate d0 ->
             decoded_samples d1 < three_seconds d1 ->
             error_message d1 = ""%string ->
             match final_state (process_single st d1) with
             | Some d' => original_sample_rate d' = original_sample_rate d0
             | None => True
             end).
  { intros st d1 _ H1 _ _. destruct st as [block | status ok | e]; simpl.
    - unfold write_callback. destruct (unsupported_format d1); exact H1.
    - exact H1.
    - exact H1. }
  specialize (H Hstep (fst (decode_init f d0)) (snd (decode_init f d0))
                (decode_init_keeps_rate f d0)).
  destruct (decode_final_state f d0) as [E | (d' & msg & E1 & E2)].
  - rewrite Hd in E.
    destruct (final_state (decode_loop _ _ _)) as [d' |]; [| discriminate].
    injection E as ->. exact H.
  - rewrite E1 in H. rewrite Hd in E2. injection E2 as ->. exact H.
Qed.

(** X2. Once [decode] has returned, the rest of [detect] raises nothing: the
    rate code it reads is a 4-bit value, so the "Invalid bytecode" error of
    the rate decoder is out of reach and every exception that [detect]
    catches started in the decoder. *)
Theorem detect_throws_only_from_decode (f : FlacFile) (id : Identifier)
        (e : exn) (id' : Identifier) :
  detect_body f id = Throwing e id' ->
  exists d, decode f (decoder id) = Throwing e d.
Proof.
  unfold detect_body.
  destruct (decode f (decoder id)) as [u d | e0 d |]; [| | discriminate].
  - destruct (negb (is_empty (error_message d))); [discriminate |].
    destruct (scan (u32 (bps d - 16)) (samples d)) as [| k i]; [discriminate |].
    destruct (read_orsf (u32 (bps d - 16)) k (samples d) i) as [orsf |] eqn:Eo;
      [| discriminate].
    destruct (decoder_in_table orsf (read_orsf_range _ _ _ _ _ Eo))
      as (rate & -> & _).
    destruct (read_provenance _ _ _ _); discriminate.
  - intros H. injection H as -> _. exists d. reflexivity.
Qed.

Lemma detect_throws_only_from_decode_witness :
  exists d,
    decode (mkFlacFile None [StreamInfo 44100 2 16]
                       [Frame (silence 16); Throws UnknownException] "")
           (decoder new_identifier)
    = Throwing UnknownException d.
Proof.
  apply (detect_throws_only_from_decode
           (mkFlacFile None [StreamInfo 44100 2 16]
                       [Frame (silence 16); Throws UnknownException] "")
           new_identifier UnknownException
           (mkIdentifier (mkDecoder 44100 2 16 16 (silence 16) "" 0 "" false)
                         false false "")).
  vm_compute. reflexivity.
Defined.

Lemma detect_result_facts (f : FlacFile) (b : bool) (id : Identifier) :
  detect f new_identifier = Returns b id ->
  isMQA id = b /\
  (b = true ->
   getErrorMessage id = ""%string /\
   In (originalSampleRate id) rate_table /\ 0 < originalSampleRate id) /\
  (b = false -> originalSampleRate id = 0 /\ isMQAStudio id = false).
Proof.
  unfold detect, detect_body. simpl decoder.
  assert (Hrate := decode_keeps_rate f new_decoder).
  destruct (decode f new_decoder) as [u d | e d |]; [| | discriminate].
  - specialize (Hrate d eq_refl). simpl in Hrate.
    destruct (negb (is_empty (error_message d))).
    { intros H. injection H as <- <-. unfold originalSampleRate. simpl.
      split; [reflexivity |]. split; [discriminate | auto]. }
    destruct (scan (u32 (bps d - 16)) (samples d)) as [| k i].
    { intros H. injection H as <- <-. unfold originalSampleRate. simpl.
      split; [reflexivity |]. split; [discriminate | auto]. }
    destruct (read_orsf (u32 (bps d - 16)) k (samples d) i) as [orsf |] eqn:Eo;
      [| discriminate].
    destruct (decoder_in_table orsf (read_orsf_range _ _ _ _ _ Eo))
      as (rate & -> & Hin & Hpos).
    destruct (read_provenance _ _ _ _) as [provenance |]; [| discriminate].
    intros H. injection H as <- <-. unfold originalSampleRate. simpl.
    split; [reflexivity |]. split; [auto | discriminate].
  - specialize (Hrate d eq_refl). simpl in Hrate.
    destruct e as [what |]; intros H; injection H as <- <-;
      unfold originalSampleRate; simpl;
      (split; [reflexivity |]); (split; [discriminate | auto]).
Qed.

(** X9. The value returned by [detect] on a fresh object and the object
    agree: the watermark flag is the returned value; on [true] no error
    message is set and the original sample rate is one of the sixteen rates
    of the table, never 0; on [false] the rate is 0 and the studio flag is
    clear. *)
Theorem detect_result_consistent (f : FlacFile) (b : bool) (id : Identifier) :
  detect f new_identifier = Returns b id ->
  isMQA id = b /\
  (b = true ->
   getErrorMessage id = ""%string /\
   In (originalSampleRate id) rate_table /\ 0 < originalSampleRate id) /\
  (b = false -> originalSampleRate id = 0 /\ isMQAStudio id = false).
Proof. exact (detect_result_facts f b id). Qed.

Lemma detect_result_consistent_witness :
  exists id,
    detect watermarked_stream new_identifier = Returns true id /\
    isMQA id = true /\ originalSampleRate id = 44100.
Proof.
  eexists. split; [vm_compute; reflexivity |].
  split; [| reflexivity].
  apply (detect_result_consistent watermarked_stream true). vm_compute. reflexivity.
Defined.

(** ** Failures of the decoder *)

Lemma decode_loop_stops (steps : list decode_step) (ok : bool) (d : Decoder) :
  is_empty (error_message d) = false ->
  decode_loop steps ok d = Returns ok d.
Proof.
  intros H. destruct steps; cbn [decode_loop]; rewrite H, andb_false_r; reflexivity.
Qed.

(** X5. When the decoder cannot be initialised, [detect] returns false with
    the message "Initializing decoder failed: " followed by the status; no
    metadata and no frame of the file is looked at. *)
Theorem detect_init_failure (f : FlacFile) (status : string) :
  init_failure f = Some status ->
  detect f new_identifier
  = Returns false
      (mkIdentifier
         (set_error_message ("Initializing decoder failed: " ++ status) new_decoder)
         false false ("Initializing decoder failed: " ++ status)).
Proof.
  intros Hinit. unfold detect, detect_body, decode, decode_init.
  simpl decoder. rewrite Hinit.
  rewrite decode_loop_stops by reflexivity.
  reflexivity.
Qed.

Lemma detect_init_failure_witness :
  detect (stream non_audio_task) new_identifier
  = Returns false
      (mkIdentifier
         (set_error_message "Initializing decoder failed: ERROR_OPENING_FILE" new_decoder)
         false false "Initializing decoder failed: ERROR_OPENING_FILE").
Proof.
  exact (detect_init_failure (stream non_audio_task) "ERROR_OPENING_FILE" eq_refl).
Defined.

Lemma total_samples_cons (b : list sample) (blocks : list (list sample)) :
  total_samples (b :: blocks) = Z.of_nat (List.length b) + total_samples blocks.
Proof. unfold total_samples. simpl. rewrite length_app. lia. Qed.

Lemma total_samples_nonneg (blocks : list (list sample)) : 0 <= total_samples blocks.
Proof. unfold total_samples. lia. Qed.

Lemma store_blocks_nil (d : Decoder) : store_blocks [] d = d.
Proof.
  unfold store_blocks, total_samples. simpl.
  rewrite Z.add_0_r, app_nil_r. destruct d; reflexivity.
Qed.

(** Frames that fit below the three-second bound are all stored. *)
Lemma decode_loop_stores_frames (blocks : list (list sample)) (tail : list decode_step) :
  forall ok d,
    unsupported_format d = false ->
    error_message d = ""%string ->
    end_of_stream d = false ->
    decoded_samples d + total_samples blocks < three_seconds d ->
    decode_loop (map Frame blocks ++ tail) ok d
    = decode_loop tail (match blocks with [] => ok | _ => true end)
                  (store_blocks blocks d).
Proof.
  induction blocks as [| b blocks IH]; intros ok d Hfmt Herr Heos Hlt.
  - simpl map. simpl app. rewrite store_blocks_nil. reflexivity.
  - rewrite total_samples_cons in Hlt.
    assert (Hnn := total_samples_nonneg blocks).
    simpl map. simpl app. cbn [decode_loop].
    rewrite Herr, Heos.
    destruct (Z.ltb_spec (decoded_samples d) (three_seconds d)); [| lia].
    cbn [andb negb is_empty process_single].
    unfold write_callback. rewrite Hfmt.
    rewrite IH; try assumption; [| simpl; unfold three_seconds in *; simpl; lia].
    f_equal.
    + destruct blocks; reflexivity.
    + unfold store_blocks. simpl. rewrite total_samples_cons.
      rewrite <- app_assoc, Z.add_assoc. reflexivity.
Qed.

(** X6. A decoder error reported after frames that fit below the bound
    makes [detect] return false with the text of the error, whatever the
    frames before it held and whatever follows it: a synchronization word
    decoded before the error is not reported. *)
Theorem detect_stream_error (f : FlacFile) (blocks : list (list sample))
        (status : string) (ok : bool) (rest : list decode_step) :
  init_failure f = None ->
  unsupported_format (stream_format f) = false ->
  file_steps f = map Frame blocks ++ StreamError status ok :: rest ->
  total_samples blocks < three_seconds (stream_format f) ->
  detect f new_identifier
  = Returns false
      (mkIdentifier
         (set_error_message ("FLAC Error: " ++ status ++ "; ")
                            (store_blocks blocks (stream_format f)))
         false false ("FLAC Error: " ++ status ++ "; ")).
Proof.
  intros Hinit Hfmt Hsteps Hlt.
  destruct (decode_init_format f Hinit) as (Hdi & Herr & Hsam).
  assert (Hrest := decode_init_ok f new_decoder Hinit).
  destruct Hrest as (_ & _ & Hdec & _ & Heos).
  fold (stream_format f) in Hdec, Heos. simpl in Hdec, Heos.
  unfold detect, detect_body, decode. simpl decoder.
  rewrite Hdi, Hsteps.
  rewrite decode_loop_stores_frames; try assumption; [| rewrite Hdec; lia].
  cbn [decode_loop].
  assert (Hs : forall x, error_message (store_blocks blocks x) = error_message x)
    by reflexivity.
  assert (He : forall x, end_of_stream (store_blocks blocks x) = end_of_stream x)
    by reflexivity.
  assert (Hd : decoded_samples (store_blocks blocks (stream_format f))
               = decoded_samples (stream_format f) + total_samples blocks)
    by reflexivity.
  assert (Ht : three_seconds (store_blocks blocks (stream_format f))
               = three_seconds (stream_format f)) by reflexivity.
  rewrite Hs, He, Herr, Heos, Hd, Ht, Hdec.
  destruct (Z.ltb_spec (0 + total_samples blocks) (three_seconds (stream_format f)));
    [| lia].
  cbn [andb negb is_empty process_single].
  unfold error_callback. rewrite Hs, Herr.
  rewrite decode_loop_stops by reflexivity.
  simpl. rewrite andb_false_r. reflexivity.
Qed.

Lemma detect_stream_error_witness :
  detect (mkFlacFile None [StreamInfo 44100 2 16]
                     [Frame (sync_samples 0 ++ silence 40);
                      StreamError "FLAC__STREAM_DECODER_ERROR_STATUS_LOST_SYNC" true;
                      Frame (silence 16)] "")
         new_identifier
  = Returns false
      (mkIdentifier
         (mkDecoder 44100 2 16 76 (sync_samples 0 ++ silence 40) "" 0
                    "FLAC Error: FLAC__STREAM_DECODER_ERROR_STATUS_LOST_SYNC; " false)
         false false "FLAC Error: FLAC__STREAM_DECODER_ERROR_STATUS_LOST_SYNC; ").
Proof.
  rewrite (detect_stream_error
             (mkFlacFile None [StreamInfo 44100 2 16]
                         [Frame (sync_samples 0 ++ silence 40);
                          StreamError "FLAC__STREAM_DECODER_ERROR_STATUS_LOST_SYNC" true;
                          Frame (silence 16)] "")
             [sync_samples 0 ++ silence 40]
             "FLAC__STREAM_DECODER_ERROR_STATUS_LOST_SYNC" true [Frame (silence 16)]
             eq_refl eq_refl eq_refl eq_refl).
  vm_compute. reflexivity.
Defined.

(** ** Only the first three seconds count *)

Lemma decode_loop_full (steps : list decode_step) (ok : bool) (d : Decoder) :
  three_seconds d <= decoded_samples d ->
  decode_loop steps ok d = Returns ok d.
Proof.
  intros H.
  destruct steps; cbn [decode_loop];
    destruct (Z.ltb_spec (decoded_samples d) (three_seconds d)); try lia;
    reflexivity.
Qed.

Lemma decode_loop_tail_irrelevant (blocks : list (list sample))
      (rest1 rest2 : list decode_step) :
  forall ok d,
    three_seconds d <= decoded_samples d + total_samples blocks ->
    decode_loop (map Frame blocks ++ rest1) ok d
    = decode_loop (map Frame blocks ++ rest2) ok d.
Proof.
  induction blocks as [| b blocks IH]; intros ok d Hle.
  - unfold total_samples in Hle. simpl in Hle.
    rewrite !decode_loop_full by lia. reflexivity.
  - rewrite total_samples_cons in Hle.
    simpl map. simpl app. cbn [decode_loop].
    destruct ((decoded_samples d <? three_seconds d)
              && is_empty (error_message d) && negb (end_of_stream d));
      [| reflexivity].
    cbn [process_single]. unfold write_callback.
    destruct (unsupported_format d).
    + rewrite !decode_loop_stops by reflexivity. reflexivity.
    + apply IH. unfold three_seconds in *. simpl. lia.
Qed.

(** X8. Once the frames at the head of a file hold three seconds of audio,
    nothing behind them is looked at: two files that agree up to that point
    give the same result, whatever follows (further frames, decoder errors
    or exceptions). *)
Theorem detect_ignores_audio_after_three_seconds
        (f1 f2 : FlacFile) (blocks : list (list sample))
        (rest1 rest2 : list decode_step) :
  init_failure f1 = init_failure f2 ->
  file_metadata f1 = file_metadata f2 ->
  state_string f1 = state_string f2 ->
  file_steps f1 = map Frame blocks ++ rest1 ->
  file_steps f2 = map Frame blocks ++ rest2 ->
  three_seconds (stream_format f1) <= total_samples blocks ->
  detect f1 new_identifier = detect f2 new_identifier.
Proof.
  intros Hi Hm Hs H1 H2 Hle.
  assert (Hinit : decode_init f1 new_decoder = decode_init f2 new_decoder).
  { unfold decode_init. rewrite Hi, Hm. reflexivity. }
  assert (Hdecode : decode f1 new_decoder = decode f2 new_decoder).
  { unfold decode. rewrite <- Hinit, H1, H2, Hs.
    destruct (decode_init_store f1 new_decoder) as [_ Hdec].
    unfold stream_format in Hle.
    destruct (decode_init f1 new_decoder) as [ok d]. simpl in *.
    rewrite (decode_loop_tail_irrelevant blocks rest1 rest2 ok d) by lia.
    reflexivity. }
  unfold detect, detect_body. simpl decoder. rewrite Hdecode. reflexivity.
Qed.

Lemma detect_ignores_audio_after_three_seconds_witness :
  detect (mkFlacFile None [StreamInfo 10 2 16]
                     [Frame (silence 16); Frame (silence 16);
                      Throws UnknownException] "")
         new_identifier
  = detect (stereo_file 10 16 [silence 16; silence 16; sync_samples 0 ++ silence 40])
           new_identifier.
Proof.
  apply (detect_ignores_audio_after_three_seconds
           (mkFlacFile None [StreamInfo 10 2 16]
                       [Frame (silence 16); Frame (silence 16);
                        Throws UnknownException] "")
           (stereo_file 10 16 [silence 16; silence 16; sync_samples 0 ++ silence 40])
           [silence 16; silence 16]
           [Throws UnknownException]
           [Frame (sync_samples 0 ++ silence 40)]);
    try reflexivity.
  vm_compute. discriminate.
Defined.

(** ** Only the difference of the channels counts *)

Lemma plane_bit_xor (pos k : Z) (s1 s2 : sample) :
  xor_diff s1 = xor_diff s2 -> plane_bit pos k s1 = plane_bit pos k s2.
Proof. intros H. unfold plane_bit. rewrite H. reflexivity. Qed.

Lemma scan_from_xor (pos : Z) (l1 : list sample) :
  forall l2 i b0 b1 b2,
    map xor_diff l1 = map xor_diff l2 ->
    scan_from pos l1 i b0 b1 b2 = scan_from pos l2 i b0 b1 b2.
Proof.
  induction l1 as [| s1 l1 IH]; intros [| s2 l2] i b0 b1 b2 H;
    try discriminate; [reflexivity |].
  simpl in H. injection H as Hs Hl. cbn [scan_from].
  rewrite (plane_bit_xor pos 0 s1 s2 Hs), (plane_bit_xor pos 1 s1 s2 Hs),
    (plane_bit_xor pos 2 s1 s2 Hs).
  rewrite (IH l2 _ _ _ _ Hl). reflexivity.
Qed.

Lemma nth_error_xor (l1 l2 : list sample) (n : nat) :
  map xor_diff l1 = map xor_diff l2 ->
  match nth_error l1 n, nth_error l2 n with
  | Some s1, Some s2 => xor_diff s1 = xor_diff s2
  | None, None => True
  | _, _ => False
  end.
Proof.
  intros H.
  assert (E : nth_error (map xor_diff l1) n = nth_error (map xor_diff l2) n)
    by (rewrite H; reflexivity).
  rewrite !nth_error_map in E.
  destruct (nth_error l1 n), (nth_error l2 n); simpl in E;
    try discriminate; [injection E as E; exact E | exact I].
Qed.

Lemma read_field_xor (pos k : Z) (l1 l2 : list sample) (i top : nat) (ms : list nat) :
  map xor_diff l1 = map xor_diff l2 ->
  forall acc, read_field pos k l1 i ms top acc = read_field pos k l2 i ms top acc.
Proof.
  intros H. induction ms as [| m ms IH]; intros acc; cbn [read_field]; [reflexivity |].
  assert (Hn := nth_error_xor l1 l2 (i + m) H).
  destruct (nth_error l1 (i + m)) as [s1 |], (nth_error l2 (i + m)) as [s2 |];
    try contradiction; [| reflexivity].
  rewrite (plane_bit_xor pos k s1 s2 Hn). apply IH.
Qed.

Lemma xor_diff_swap (s : sample) : xor_diff (swap_channels s) = xor_diff s.
Proof. unfold xor_diff, swap_channels. simpl. apply Z.lxor_comm. Qed.

(** X4. The scanning loop and the payload loops see a stream only through
    left XOR right: two streams with the same differences give the same
    match and the same fields, and exchanging the two channels of every
    sample is such a change. *)
Theorem detection_depends_on_channel_difference (pos : Z) (l1 l2 : list sample) :
  map xor_diff l1 = map xor_diff l2 ->
  scan pos l1 = scan pos l2 /\
  (forall k i, read_orsf pos k l1 i = read_orsf pos k l2 i) /\
  (forall k i, read_provenance pos k l1 i = read_provenance pos k l2 i) /\
  map xor_diff (map swap_channels l1) = map xor_diff l1.
Proof.
  intros H. split; [| split; [| split]].
  - apply scan_from_xor. exact H.
  - intros k i. apply read_field_xor. exact H.
  - intros k i. apply read_field_xor. exact H.
  - rewrite map_map. apply map_ext. apply xor_diff_swap.
Qed.

Lemma detection_depends_on_channel_difference_witness :
  scan 8 (map swap_channels (silence 7 ++ sync_samples 9 ++ silence 40))
  = scan 8 (silence 7 ++ sync_samples 9 ++ silence 40).
Proof.
  apply (detection_depends_on_channel_difference 8
           (map swap_channels (silence 7 ++ sync_samples 9 ++ silence 40))
           (silence 7 ++ sync_samples 9 ++ silence 40)).
  rewrite map_map. apply map_ext. apply xor_diff_swap.
Defined.

(** ** The encoder comment *)

Lemma substring_all (s : string) : substring 0 (String.length s) s = s.
Proof. induction s as [| c s IH]; simpl; [reflexivity | rewrite IH; reflexivity]. Qed.

Lemma comment_encoder_tag (enc v : string) :
  comment_encoder enc (comment_text ("MQAENCODER"%string, v)) = ("=" ++ v)%string.
Proof.
  unfold comment_encoder, comment_text. cbn [fst snd].
  cbn [append substring String.eqb Ascii.eqb Bool.eqb String.length Nat.sub].
  change (String "=" v) with ("=" ++ v)%string at 1.
  exact (substring_all ("=" ++ v)%string).
Qed.

Lemma comment_encoder_other (enc comment : string) :
  starts_with_encoder comment = false -> comment_encoder enc comment = enc.
Proof. unfold starts_with_encoder, comment_encoder. intros ->. reflexivity. Qed.

Lemma fold_comment_encoder_others (comments : list string) :
  forall enc,
    (forall c, In c comments -> starts_with_encoder c = false) ->
    fold_left comment_encoder comments enc = enc.
Proof.
  induction comments as [| c comments IH]; intros enc H; simpl; [reflexivity |].
  rewrite comment_encoder_other by (apply H; left; reflexivity).
  apply IH. intros c' Hc'. apply H. right. exact Hc'.
Qed.

(** X7. [metadata_callback] keeps, of a Vorbis comment block, the text that
    follows the ten characters "MQAENCODER" of the last comment starting
    with them, the equals sign included; a block without such a comment
    leaves the encoder string as it was. *)
Theorem metadata_callback_encoder (d : Decoder) (before after : list string)
        (v : string) :
  (forall c, In c after -> starts_with_encoder c = false) ->
  mqa_encoder
    (metadata_callback
       (VorbisComment (before ++ comment_text ("MQAENCODER"%string, v) :: after)) d)
  = ("=" ++ v)%string /\
  mqa_encoder (metadata_callback (VorbisComment after) d) = mqa_encoder d.
Proof.
  intros Hafter. simpl. split.
  - rewrite fold_left_app. simpl. rewrite comment_encoder_tag.
    apply fold_comment_encoder_others. exact Hafter.
  - apply fold_comment_encoder_others. exact Hafter.
Qed.

Lemma metadata_callback_encoder_witness :
  mqa_encoder
    (metadata_callback
       (VorbisComment (["TITLE=x"; "MQAENCODER=old"]%string
                         ++ comment_text ("MQAENCODER"%string, MQAENCODER_value)
                         :: ["ARTIST=y"%string]))
       new_decoder)
  = ("=" ++ MQAENCODER_value)%string.
Proof.
  apply (metadata_callback_encoder new_decoder ["TITLE=x"; "MQAENCODER=old"]%string
                                   ["ARTIST=y"%string] MQAENCODER_value).
  intros c [<- | []]. reflexivity.
Defined.

(** * Further properties of the driver *)

(** ** Relations kept by every step of the driver *)

Section Respects.

Variable cfg : Config.
Variable env : Env.
Variable R : State -> State -> Prop.
Variable writable : string -> Prop.

Hypothesis R_refl : forall s, R s s.
Hypothesis R_trans : forall s1 s2 s3, R s1 s2 -> R s2 s3 -> R s1 s3.

Hypothesis R_log_skip :
  forall file reason s,
    R s (mkState (scanned_count s) (mqa_count s)
                 (ledger_push reason file (scan_errors s))
                 (if verbose_logging cfg
                  then detailed_log s ++ [("[ERROR] " ++ file ++ ": " ++ reason)%string]
                  else detailed_log s)
                 (disk s)).
Hypothesis R_log_message :
  forall msg s,
    R s (mkState (scanned_count s) (mqa_count s) (scan_errors s)
                 (detailed_log s ++ [msg]) (disk s)).
Hypothesis R_scanned :
  forall s,
    R s (mkState (size_t_succ (scanned_count s)) (mqa_count s) (scan_errors s)
                 (detailed_log s) (disk s)).
Hypothesis R_mqa :
  forall s,
    R s (mkState (scanned_count s) (size_t_succ (mqa_count s)) (scan_errors s)
                 (detailed_log s) (disk s)).
Hypothesis R_write :
  forall file blocks s,
    dry_run cfg = false -> writable file ->
    R s (mkState (scanned_count s) (mqa_count s) (scan_errors s) (detailed_log s)
                 (disk_put file blocks (disk s))).

Lemma respects_ret {A : Type} (a : A) : respects R (ret a).
Proof. intros s. apply R_refl. Qed.

Lemma respects_throw {A : Type} (e : exn) : respects R (@throw A e).
Proof. intros s. apply R_refl. Qed.

Lemma respects_bind {A B : Type} (m : M A) (k : A -> M B) :
  respects R m -> (forall a, respects R (k a)) -> respects R (bind m k).
Proof.
  intros Hm Hk s. unfold bind. specialize (Hm s).
  destruct (m s) as [a s1 | e s1 |]; [| exact Hm | exact I].
  specialize (Hk a s1).
  destruct (k a s1) as [b s2 | e s2 |]; [| | exact I];
    eapply R_trans; eassumption.
Qed.

Lemma respects_try_catch {A : Type} (m : M A) (h1 : string -> M A) (h2 : M A) :
  respects R m -> (forall w, respects R (h1 w)) -> respects R h2 ->
  respects R (try_catch m h1 h2).
Proof.
  intros Hm H1 H2 s. unfold try_catch. specialize (Hm s).
  destruct (m s) as [a s1 | [w |] s1 |]; [exact Hm | | | exact I].
  - specialize (H1 w s1).
    destruct (h1 w s1) as [b s2 | e s2 |]; [| | exact I];
      eapply R_trans; eassumption.
  - specialize (H2 s1).
    destruct (h2 s1) as [b s2 | e s2 |]; [| | exact I];
      eapply R_trans; eassumption.
Qed.

Lemma respects_raising (at_ : site) : respects R (raising env at_).
Proof. intros s. unfold raising. destruct (throws env at_); apply R_refl. Qed.

Lemma respects_log_message (at_ : site) (msg : string) :
  respects R (log_message cfg env at_ msg).
Proof.
  unfold log_message. apply respects_bind; [apply respects_raising |].
  intros _. destruct (verbose_logging cfg); simpl.
  - intros s. apply R_log_message.
  - apply respects_ret.
Qed.

Lemma respects_log_skip (at_ : site) (file reason : string) :
  respects R (log_skip cfg env at_ file reason).
Proof.
  unfold log_skip. apply respects_bind; [apply respects_raising |].
  intros _ s. apply R_log_skip.
Qed.

Lemma respects_incr_scanned : respects R incr_scanned.
Proof. intros s. apply R_scanned. Qed.

Lemma respects_logged_return {A : Type} (at_ : site) (file reason : string) (a : A) :
  respects R (log_skip cfg env at_ file reason ;; incr_scanned ;; ret a).
Proof.
  apply respects_bind; [apply respects_log_skip |]. intros _.
  apply respects_bind; [apply respects_incr_scanned |]. intros _.
  apply respects_ret.
Qed.

Lemma respects_tagFile (file : string) (original_rate : Z) :
  writable file -> respects R (tagFile cfg env file original_rate).
Proof.
  intros Hw. unfold tagFile.
  destruct (dry_run cfg) eqn:Hdry; [apply respects_log_message |].
  apply respects_try_catch.
  - apply respects_bind.
    { unfold chain_read. apply respects_bind; [apply respects_raising |].
      intros _ s. apply R_refl. }
    intros [blocks |]; [| apply respects_log_skip].
    apply respects_bind.
    { unfold comment_block. destruct (find_vorbis blocks); [apply respects_ret |].
      apply respects_bind; [apply respects_raising |]. intros _.
      destruct (fails env InsertBlock); [| apply respects_ret].
      apply respects_bind; [apply respects_log_skip |]. intros _.
      apply respects_ret. }
    intros [[blocks' comments] |]; [| apply respects_ret].
    destruct (ensure_tags original_rate comments) as [comments' modified].
    destruct modified; [| apply respects_ret].
    destruct (fails env ChainWrite); [apply respects_log_skip |].
    apply respects_bind; [| intros _; apply respects_log_message].
    intros s. apply R_write; [reflexivity | exact Hw].
  - intros w. apply respects_log_skip.
  - apply respects_log_skip.
Qed.

Lemma respects_validate_header (t : Task) (filename_str : string) :
  respects R (validate_header cfg env t filename_str).
Proof.
  unfold validate_header, try_std. apply respects_try_catch.
  - destruct (negb (openable t)); [apply respects_throw |].
    destruct (negb (String.length (substring 0 4 (leading_bytes t)) =? 4)%nat);
      [apply respects_throw |].
    destruct (negb (String.eqb (substring 0 4 (leading_bytes t)) "fLaC"));
      [apply respects_logged_return | apply respects_ret].
  - intros w. apply respects_logged_return.
  - apply respects_throw.
Qed.

Lemma respects_create_identifier (filename_str : string) :
  respects R (create_identifier cfg env filename_str).
Proof.
  unfold create_identifier. apply respects_try_catch.
  - apply respects_bind; [apply respects_raising |]. intros _. apply respects_ret.
  - intros w. apply respects_logged_return.
  - apply respects_logged_return.
Qed.

Lemma respects_guarded_detect (t : Task) (filename_str : string) (id : Identifier) :
  respects R (guarded_detect cfg env t filename_str id).
Proof.
  unfold guarded_detect. apply respects_try_catch.
  - apply respects_bind; [| intros r; apply respects_ret].
    intros s. unfold call_detect.
    destruct (detect (stream t) id); try apply R_refl. exact I.
  - intros w. apply respects_logged_return.
  - apply respects_logged_return.
Qed.

Lemma respects_report (t : Task) (detected : bool) (id : Identifier) :
  writable (path t) -> respects R (report cfg env t detected id).
Proof.
  intros Hw. unfold report. destruct detected.
  - apply respects_bind.
    { destruct (negb (originalSampleRate id =? 0)); apply respects_tagFile; exact Hw. }
    intros _. apply respects_bind; [intros s; apply R_mqa |].
    intros _. apply respects_log_message.
  - destruct (negb (is_empty (getErrorMessage id)));
      [apply respects_log_skip | apply respects_log_message].
Qed.

Lemma respects_processFile (t : Task) :
  writable (path t) -> respects R (processFile cfg env t).
Proof.
  intros Hw. unfold processFile. apply respects_try_catch.
  - unfold processFile_body.
    apply respects_bind; [apply respects_validate_header |].
    intros valid. destruct (negb valid); [apply respects_ret |].
    apply respects_bind; [apply respects_create_identifier |].
    intros [id |]; [| apply respects_ret].
    apply respects_bind; [apply respects_guarded_detect |].
    intros [[detected id'] |]; [| apply respects_ret].
    apply respects_bind; [apply respects_report; exact Hw |].
    intros _. apply respects_incr_scanned.
  - intros w. apply respects_bind; [| intros _; apply respects_incr_scanned].
    unfold swallow. apply respects_try_catch;
      [apply respects_log_skip | intros _; apply respects_ret | apply respects_ret].
  - apply respects_bind; [| intros _; apply respects_incr_scanned].
    unfold swallow. apply respects_try_catch;
      [apply respects_log_skip | intros _; apply respects_ret | apply respects_ret].
Qed.

Lemma respects_file_loop (files : list Task) :
  (forall t, In t files -> writable (path t)) ->
  respects R (file_loop cfg env files).
Proof.
  induction files as [| t rest IH]; intros Hw; cbn [file_loop].
  - apply respects_ret.
  - apply respects_bind.
    + apply respects_try_catch;
        [apply respects_bind;
         [apply respects_raising
         | intros _; apply respects_processFile; apply Hw; left; reflexivity]
        | intros _; apply respects_ret | apply respects_ret].
    + intros _. apply IH. intros t' Ht'. apply Hw. right. exact Ht'.
Qed.

End Respects.

Lemma respects_final (R : State -> State -> Prop) {A : Type} (m : M A) (s s' : State) :
  respects R m -> final_state (m s) = Some s' -> R s s'.
Proof.
  intros H Hf. specialize (H s).
  destruct (m s) as [a s1 | e s1 |]; simpl in Hf; try discriminate;
    injection Hf as <-; exact H.
Qed.

(** ** The ledger and the log only grow *)

Lemma extends_refl {A : Type} (l : list A) : extends l l.
Proof. exists []. rewrite app_nil_r. reflexivity. Qed.

Lemma extends_trans {A : Type} (l1 l2 l3 : list A) :
  extends l1 l2 -> extends l2 l3 -> extends l1 l3.
Proof.
  intros [a ->] [b ->]. exists (a ++ b). rewrite app_assoc. reflexivity.
Qed.

Lemma extends_snoc {A : Type} (l : list A) (x : A) : extends l (l ++ [x]).
Proof. exists [x]. reflexivity. Qed.

(** [scan_errors[reason].push_back(path)], read back. *)
Lemma ledger_get_push (reason file r : string) (l : ledger) :
  ledger_get r (ledger_push reason file l)
  = if String.eqb reason r then ledger_get r l ++ [file] else ledger_get r l.
Proof.
  induction l as [| [r0 paths] rest IH]; simpl.
  - rewrite String.eqb_sym. destruct (String.eqb r reason); reflexivity.
  - destruct (String.eqb_spec r0 reason) as [-> | Hne]; simpl.
    + destruct (String.eqb reason r); reflexivity.
    + destruct (String.eqb_spec r0 r) as [-> | Hne2].
      * destruct (String.eqb_spec reason r) as [-> | _]; [contradiction | reflexivity].
      * exact IH.
Qed.


Lemma logs_grow_trans (s1 s2 s3 : State) :
  logs_grow s1 s2 -> logs_grow s2 s3 -> logs_grow s1 s3.
Proof.
  intros [H1 H2] [H3 H4]. split.
  - intros r. eapply extends_trans; [apply H1 | apply H3].
  - eapply extends_trans; eassumption.
Qed.



(** ** What a run can do to the files *)


(** X10. In dry-run mode no file on disk is modified, whatever the tasks
    are and wherever a call fails or an exception starts. *)
Theorem dry_run_writes_nothing (cfg : Config) (env : Env) (files : list Task)
        (s s' : State) :
  dry_run cfg = true ->
  final_state (file_loop cfg env files s) = Some s' ->
  disk s' = disk s.
Proof.
  intros Hdry.
  apply (respects_final (fun s s' => disk s' = disk s)).
  apply (respects_file_loop cfg env (fun s s' => disk s' = disk s) (fun _ => True));
    try (intros; reflexivity).
  - intros s1 s2 s3 H1 H2. congruence.
  - intros file blocks st Hfalse _. rewrite Hdry in Hfalse. discriminate.
Qed.

Lemma dry_run_writes_nothing_witness :
  exists s',
    final_state (file_loop (mkConfig true true) calm
                           [positive_task; negative_task; non_audio_task]
                           (initial_state three_files)) = Some s' /\
    mqa_count s' = 1 /\
    disk s' = three_files.
Proof.
  eexists. split; [vm_compute; reflexivity |].
  split; [reflexivity |].
  apply (dry_run_writes_nothing (mkConfig true true) calm
           [positive_task; negative_task; non_audio_task]
           (initial_state three_files)); [reflexivity |].
  vm_compute. reflexivity.
Defined.



(** ** Which files are written, and when *)

Section Steady.

Variable cfg : Config.
Variable env : Env.









End Steady.




(** ** The header check *)

(** X14. A file that fails the header check is filed once, under the reason
    of the failure, and counted as scanned; the decoder is never started on
    it, so the outcome does not depend on what the file holds behind its
    first four bytes. *)
Theorem processFile_rejects_invalid_header (cfg : Config) (env : Env) (t : Task)
        (s : State) :
  header_valid t = false ->
  throws env LogInvalid = None ->
  throws env LogBadHeader = None ->
  processFile cfg env t s
  = Returns tt
      (mkState (size_t_succ (scanned_count s)) (mqa_count s)
               (ledger_push (rejection_reason t) (path t) (scan_errors s))
               (if verbose_logging cfg
                then detailed_log s
                       ++ [("[ERROR] " ++ path t ++ ": " ++ rejection_reason t)%string]
                else detailed_log s)
               (disk s)).
Proof.
  intros Hv Hinv Hbad.
  unfold processFile, processFile_body, validate_header, try_std, try_catch,
    rejection_reason.
  unfold header_valid in Hv.
  destruct (openable t); cbn [negb andb] in *.
  - destruct (String.length (substring 0 4 (leading_bytes t)) =? 4)%nat; cbn [negb].
    + rewrite Hv. cbn [negb].
      unfold bind, log_skip, raising, incr_scanned, modify, ret.
      rewrite Hbad. reflexivity.
    + unfold bind, throw, log_skip, raising, incr_scanned, modify, ret.
      rewrite Hinv. reflexivity.
  - unfold bind, throw, log_skip, raising, incr_scanned, modify, ret.
    rewrite Hinv. reflexivity.
Qed.

Lemma processFile_rejects_invalid_header_witness :
  processFile plain calm non_audio_task (initial_state three_files)
  = Returns tt
      (mkState 1 0 [("Not a valid FLAC file"%string, ["a/bad_header.flac"%string])]
               [] three_files).
Proof.
  rewrite (processFile_rejects_invalid_header plain calm non_audio_task
             (initial_state three_files) eq_refl eq_refl eq_refl).
  reflexivity.
Defined.

(** ** The tag writer reports through the ledger *)



(** ** The tag writer only appends *)











(** A PADDING block of 134 bytes is, with its header, exactly the 138 bytes
    of the two entries: it is dropped.  One of 135 bytes is too short to be
    cut down and not of the size to be dropped: it stays, and the file is
    rewritten. *)
Example tagFile_drops_padding :
  final_state
    (tagFile plain calm "a/padded.flac" 96000
       (initial_state
          [("a/padded.flac"%string,
            [VORBIS_COMMENT [("TITLE"%string, "x"%string)]; PADDING 134])]))
  = Some (mkState 0 0 [] []
            [("a/padded.flac"%string,
              [VORBIS_COMMENT [("TITLE"%string, "x"%string);
                               ("MQAENCODER"%string, MQAENCODER_value);
                               ("ORIGINALSAMPLERATE"%string, "96000"%string)]])]) /\
  final_state
    (tagFile plain calm "a/padded.flac" 96000
       (initial_state
          [("a/padded.flac"%string,
            [VORBIS_COMMENT [("TITLE"%string, "x"%string)]; PADDING 135])]))
  = Some (mkState 0 0 [] []
            [("a/padded.flac"%string,
              [VORBIS_COMMENT [("TITLE"%string, "x"%string);
                               ("MQAENCODER"%string, MQAENCODER_value);
                               ("ORIGINALSAMPLERATE"%string, "96000"%string)];
               PADDING 135])]).
Proof. split; vm_compute; reflexivity. Qed.

(** ** The command line *)

Lemma parse_arguments_from (args : list string) :
  forall a,
    fold_left parse_argument args a
    = mkArguments (arg_verbose a || existsb (fun arg => String.eqb arg "-v") args)
                  (arg_dry_run a || existsb (fun arg => String.eqb arg "--dry-run") args)
                  (input_paths a ++ filter (fun arg => negb (is_flag arg)) args).
Proof.
  induction args as [| arg args IH]; intros a; simpl.
  - rewrite !orb_false_r, app_nil_r. destruct a; reflexivity.
  - rewrite IH. unfold parse_argument, is_flag.
    destruct (String.eqb_spec arg "-v") as [-> | Hv].
    + simpl. rewrite orb_true_r. reflexivity.
    + destruct (String.eqb arg "--dry-run"); simpl.
      * rewrite orb_true_r. reflexivity.
      * destruct (String.eqb (substring 0 6 arg) "--log="); simpl;
          rewrite <- app_assoc; reflexivity.
Qed.

(** X17. The argument loop of [main] does not depend on where the two
    options stand: logging is verbose when some argument is "-v", the run is
    a dry run when some argument is "--dry-run", and every other argument,
    an argument starting with "--log=" included, is an input path, in the
    order given. *)
Theorem parse_arguments_closed_form (args : list string) :
  parse_arguments args
  = mkArguments (existsb (fun arg => String.eqb arg "-v") args)
                (existsb (fun arg => String.eqb arg "--dry-run") args)
                (filter (fun arg => negb (is_flag arg)) args).
Proof. unfold parse_arguments. rewrite parse_arguments_from. reflexivity. Qed.

(** ** The bounded loop of the pooled revision *)

Lemma max_threads_range (hardware_concurrency : nat) :
  (1 <= max_threads hardware_concurrency <= 16)%nat.
Proof.
  unfold max_threads.
  destruct (Nat.eqb_spec hardware_concurrency 0) as [-> | Hne]; simpl; [lia |].
  destruct (Nat.ltb_spec 16 hardware_concurrency); lia.
Qed.

Lemma filter_length_le {A : Type} (p : A -> bool) (l : list A) :
  (List.length (filter p l) <= List.length l)%nat.
Proof.
  induction l as [| x l IH]; simpl; [lia |].
  destruct (p x); simpl; lia.
Qed.

Lemma increasing_filter (p : nat -> bool) (l : list nat) :
  increasing l -> increasing (filter p l).
Proof.
  induction l as [| i l IH]; simpl; intros H; [exact I |].
  destruct H as [Hi Hl]. destruct (p i); simpl.
  - split; [| apply IH, Hl].
    intros j Hj. apply filter_In in Hj. apply Hi, Hj.
  - apply IH, Hl.
Qed.

Lemma increasing_tl (l : list nat) : increasing l -> increasing (tl l).
Proof. destruct l as [| i l]; simpl; [auto | intros [_ H]; exact H]. Qed.

Lemma increasing_snoc (l : list nat) (n : nat) :
  increasing l -> (forall j, In j l -> (j < n)%nat) -> increasing (l ++ [n]).
Proof.
  induction l as [| i l IH]; simpl; intros H Hlt.
  - split; [intros j [] | exact I].
  - destruct H as [Hi Hl]. split.
    + intros j Hj. apply in_app_or in Hj. destruct Hj as [Hj | [<- | []]].
      * apply Hi, Hj.
      * apply Hlt. left. reflexivity.
    + apply IH; [exact Hl |]. intros j Hj. apply Hlt. right. exact Hj.
Qed.

Lemma In_tl {A : Type} (x : A) (l : list A) : In x (tl l) -> In x l.
Proof. destruct l; simpl; auto. Qed.

Lemma launch_invariant (m : nat) (ready : nat -> bool) (count : nat) (futures : list nat) :
  (1 <= m)%nat ->
  pool_invariant m count futures ->
  pool_invariant m (S count) (launch m ready count futures).
Proof.
  intros Hm (Hlen & Hinc & Hrange). unfold launch.
  set (kept := filter (fun i => negb (ready i)) futures).
  assert (Hk1 : (List.length kept <= List.length futures)%nat)
    by apply filter_length_le.
  assert (Hk2 : increasing kept) by (apply increasing_filter; exact Hinc).
  assert (Hk3 : forall j, In j kept -> (1 <= j <= count)%nat).
  { intros j Hj. apply filter_In in Hj. apply Hrange, Hj. }
  destruct (Nat.leb_spec m (List.length kept)) as [Hfull | Hroom].
  - split; [| split].
    + rewrite length_app. simpl. destruct kept; simpl in *; lia.
    + apply increasing_snoc; [apply increasing_tl; exact Hk2 |].
      intros j Hj. apply In_tl in Hj. specialize (Hk3 j Hj). lia.
    + intros j Hj. apply in_app_or in Hj. destruct Hj as [Hj | [<- | []]]; [| lia].
      apply In_tl in Hj. specialize (Hk3 j Hj). lia.
  - split; [| split].
    + rewrite length_app. simpl. lia.
    + apply increasing_snoc; [exact Hk2 |].
      intros j Hj. specialize (Hk3 j Hj). lia.
    + intros j Hj. apply in_app_or in Hj. destruct Hj as [Hj | [<- | []]]; [| lia].
      specialize (Hk3 j Hj). lia.
Qed.

Lemma bounded_loop_invariant (m : nat) (polls : list (nat -> bool)) :
  (1 <= m)%nat ->
  forall count futures,
    pool_invariant m count futures ->
    pool_invariant m (count + List.length polls) (bounded_loop m polls count futures).
Proof.
  intros Hm. induction polls as [| ready rest IH]; intros count futures Hinv; simpl.
  - rewrite Nat.add_0_r. exact Hinv.
  - replace (count + S (List.length rest))%nat with (S count + List.length rest)%nat
      by lia.
    apply IH. apply launch_invariant; assumption.
Qed.

(** X18. The bounded loop of the pooled revision of [main] never holds more
    futures than [max_threads], which lies between 1 and 16 whatever the
    hardware reports: after any number of files, and whichever futures were
    found ready at each poll, the vector holds at most that many tasks,
    oldest first; and when it is full and none is ready, the task waited
    for and removed is the oldest one. *)
Theorem bounded_loop_is_bounded (hardware_concurrency : nat)
        (polls : list (nat -> bool)) :
  (1 <= max_threads hardware_concurrency <= 16)%nat /\
  (List.length (bounded_loop (max_threads hardware_concurrency) polls 0 [])
   <= max_threads hardware_concurrency)%nat /\
  increasing (bounded_loop (max_threads hardware_concurrency) polls 0 []) /\
  (forall j, In j (bounded_loop (max_threads hardware_concurrency) polls 0 []) ->
             (1 <= j <= List.length polls)%nat) /\
  (forall ready count futures,
      List.length futures = max_threads hardware_concurrency ->
      (forall i, In i futures -> ready i = false) ->
      launch (max_threads hardware_concurrency) ready count futures
      = tl futures ++ [S count]).
Proof.
  assert (Hm := max_threads_range hardware_concurrency).
  split; [exact Hm |].
  assert (H0 : pool_invariant (max_threads hardware_concurrency) 0 []).
  { split; [simpl; lia |]. split; [exact I | intros j []]. }
  destruct (bounded_loop_invariant (max_threads hardware_concurrency) polls
                                   (proj1 Hm) 0 [] H0) as (H1 & H2 & H3).
  split; [exact H1 |]. split; [exact H2 |]. split; [exact H3 |].
  intros ready count futures Hlen Hnone. unfold launch.
  assert (Hkeep : filter (fun i => negb (ready i)) futures = futures).
  { clear Hlen. induction futures as [| i rest IH]; simpl; [reflexivity |].
    rewrite (Hnone i (or_introl eq_refl)). simpl. f_equal.
    apply IH. intros j Hj. apply Hnone. right. exact Hj. }
  rewrite Hkeep, Hlen, Nat.leb_refl. reflexivity.
Qed.

(** * The directory scan *)

(** Induction over a tree, the entries of a directory included. *)
Lemma fs_node_induction (P : fs_node -> Prop) :
  P RegularFile -> P OtherFile -> (forall what, P (Failing what)) ->
  (forall entries, Forall (fun ne => P (snd ne)) entries -> P (Directory entries)) ->
  forall node, P node.
Proof.
  intros Hr Ho Hf Hd.
  refine (fix IH (node : fs_node) : P node :=
            match node with
            | RegularFile => Hr
            | Directory entries =>
                Hd entries
                   ((fix go (es : list (string * fs_node))
                       : Forall (fun ne => P (snd ne)) es :=
                       match es with
                       | [] => Forall_nil _
                       | ne :: es' => Forall_cons ne (IH (snd ne)) (go es')
                       end) entries)
            | OtherFile => Ho
            | Failing what => Hf what
            end).
Qed.

Lemma scan_keeps_refl (s : State) : scan_keeps s s.
Proof. repeat split; try reflexivity; try apply extends_refl. intros r. apply extends_refl. Qed.

Lemma scan_keeps_trans (s1 s2 s3 : State) :
  scan_keeps s1 s2 -> scan_keeps s2 s3 -> scan_keeps s1 s3.
Proof.
  intros (A1 & A2 & A3 & A4) (B1 & B2 & B3 & B4).
  split; [congruence |]. split; [congruence |]. split; [congruence |].
  eapply logs_grow_trans; eassumption.
Qed.

Lemma scan_keeps_record (cfg : Config) (file reason : string) (s : State) :
  scan_keeps s (record_skip cfg file reason s).
Proof.
  unfold record_skip. repeat split; simpl.
  - intros r. rewrite ledger_get_push.
    destruct (String.eqb reason r); [apply extends_snoc | apply extends_refl].
  - destruct (verbose_logging cfg); [apply extends_snoc | apply extends_refl].
Qed.

Lemma recursiveScan_node_spec (cfg : Config) (node : fs_node) :
  forall curDir files s,
    fst (recursiveScan_node cfg curDir node files s) = files ++ flac_files curDir node /\
    scan_keeps s (snd (recursiveScan_node cfg curDir node files s)).
Proof.
  induction node as [| | what | entries IH] using fs_node_induction;
    intros curDir files s.
  - simpl. destruct (String.eqb (extension (filename curDir)) ".flac"); simpl;
      rewrite ?app_nil_r; split; try reflexivity; apply scan_keeps_refl.
  - simpl. rewrite app_nil_r. split; [reflexivity | apply scan_keeps_refl].
  - simpl. rewrite app_nil_r. split; [reflexivity | apply scan_keeps_record].
  - cbn [recursiveScan_node flac_files].
    revert files s.
    induction entries as [| [name entry] rest IHrest]; intros files s.
    + simpl. rewrite app_nil_r. split; [reflexivity | apply scan_keeps_refl].
    + inversion IH as [| ? ? Hentry Hrest]; subst. simpl in Hentry.
      specialize (IHrest Hrest).
      assert (Hstep : forall files s,
                 let r := match entry with
                          | RegularFile =>
                              if String.eqb (extension (filename (join curDir name))) ".flac"
                              then (files ++ [join curDir name], s) else (files, s)
                          | Directory _ =>
                              recursiveScan_node cfg (join curDir name) entry files s
                          | OtherFile => (files, s)
                          | Failing what =>
                              (files, record_skip cfg (join curDir name)
                                                  ("Filesystem Error: " ++ what) s)
                          end in
                 fst r = files ++ flac_files (join curDir name) entry /\
                 scan_keeps s (snd r)).
      { intros files0 s0. destruct entry as [| es | | what]; cbv zeta.
        - simpl. destruct (String.eqb (extension (filename (join curDir name))) ".flac");
            simpl; rewrite ?app_nil_r; split; try reflexivity; apply scan_keeps_refl.
        - apply Hentry.
        - simpl. rewrite app_nil_r. split; [reflexivity | apply scan_keeps_refl].
        - simpl. rewrite app_nil_r. split; [reflexivity | apply scan_keeps_record]. }
      specialize (Hstep files s). cbv zeta in Hstep.
      cbn beta iota.
      match goal with
      | |- context [let '(f, st) := ?r in _] => destruct r as [files1 s1] eqn:E
      end.
      simpl in Hstep. destruct Hstep as [Hf Hk]. subst files1.
      destruct (IHrest (files ++ flac_files (join curDir name) entry) s1) as [Hf2 Hk2].
      split.
      * rewrite Hf2, <- app_assoc. reflexivity.
      * eapply scan_keeps_trans; eassumption.
Qed.

Lemma flac_files_are_flac (node : fs_node) :
  forall p, Forall is_flac_path (flac_files p node).
Proof.
  induction node as [| | what | entries IH] using fs_node_induction; intros p.
  - simpl. destruct (String.eqb_spec (extension (filename p)) ".flac");
      constructor; [assumption | constructor].
  - constructor.
  - constructor.
  - cbn [flac_files].
    induction entries as [| [name entry] rest IHrest]; [constructor |].
    inversion IH as [| ? ? Hentry Hrest]; subst. simpl in Hentry.
    apply Forall_app. split; [apply Hentry | apply IHrest, Hrest].
Qed.

Lemma last_dot_suffix_is_suffix (s x : string) :
  last_dot_suffix s = Some x -> exists pre, s = (pre ++ x)%string.
Proof.
  revert x. induction s as [| c s IH]; intros x H; simpl in H; [discriminate |].
  destruct (last_dot_suffix s) as [y |].
  - injection H as <-. destruct (IH y eq_refl) as [pre ->].
    exists (String c pre). reflexivity.
  - destruct (Ascii.eqb c "."); [| discriminate].
    injection H as <-. exists EmptyString. reflexivity.
Qed.

Lemma last_dot_suffix_flac (pre : string) :
  last_dot_suffix (pre ++ ".flac") = Some ".flac"%string.
Proof.
  induction pre as [| c pre IH]; [reflexivity |].
  simpl. simpl in IH. rewrite IH. reflexivity.
Qed.

(** The extension of a name is ".flac" exactly for the names made of a
    non-empty stem and ".flac". *)
Lemma extension_flac (name : string) :
  extension name = ".flac"%string <-> flac_name name.
Proof.
  unfold extension, flac_name. split.
  - destruct (String.eqb name ".."); [discriminate |].
    destruct name as [| c rest]; [discriminate |].
    destruct (last_dot_suffix rest) as [x |] eqn:E; [| discriminate].
    intros ->. destruct (last_dot_suffix_is_suffix rest _ E) as [pre ->].
    exists c, pre. reflexivity.
  - intros (c & stem & ->).
    destruct (String.eqb_spec (String c stem ++ ".flac") "..") as [E | _].
    + exfalso. simpl in E. injection E as _ E.
      destruct stem as [| c1 stem]; simpl in E; [discriminate |].
      injection E as _ E. destruct stem; discriminate.
    + simpl. rewrite last_dot_suffix_flac. reflexivity.
Qed.

Lemma recursiveScan_spec (cfg : Config) (input : string * option fs_node)
      (files : list string) (s : State) :
  fst (recursiveScan cfg (fst input) (snd input) files s) = files ++ found_in input /\
  scan_keeps s (snd (recursiveScan cfg (fst input) (snd input) files s)).
Proof.
  destruct input as [p [node |]]; unfold found_in; simpl.
  - apply recursiveScan_node_spec.
  - rewrite app_nil_r. split; [reflexivity | apply scan_keeps_record].
Qed.

(** X19. The directory scan only appends to the list of files, and what it
    appends are the paths, in directory order and input by input, of the
    regular files whose name is a non-empty stem followed by ".flac" in
    lower case.  A path that does not exist, an entry whose status cannot
    be read and an entry that is neither file nor directory add nothing and
    do not keep the scan from going on; the scan touches neither the
    counters nor the disk, and the ledger and the log only gain entries. *)
Theorem scan_inputs_collects_flac_files (cfg : Config)
        (inputs : list (string * option fs_node)) (files : list string) (s : State) :
  fst (scan_inputs cfg inputs files s) = files ++ flat_map found_in inputs /\
  Forall (fun p => flac_name (filename p)) (flat_map found_in inputs) /\
  scan_keeps s (snd (scan_inputs cfg inputs files s)).
Proof.
  split; [| split].
  - revert files s. induction inputs as [| [p root] rest IH]; intros files s; simpl.
    + rewrite app_nil_r. reflexivity.
    + destruct (recursiveScan_spec cfg (p, root) files s) as [Hf _]. simpl in Hf.
      destruct (recursiveScan cfg p root files s) as [files1 s1]. simpl in Hf.
      rewrite IH, Hf, <- app_assoc. reflexivity.
  - induction inputs as [| [p root] rest IH]; simpl; [constructor |].
    apply Forall_app. split; [| exact IH].
    unfold found_in. simpl. destruct root as [node |]; [| constructor].
    assert (H := flac_files_are_flac node p).
    eapply Forall_impl; [| exact H].
    intros q Hq. apply extension_flac. exact Hq.
  - revert files s. induction inputs as [| [p root] rest IH]; intros files s; simpl.
    + apply scan_keeps_refl.
    + destruct (recursiveScan_spec cfg (p, root) files s) as [_ Hk]. simpl in Hk.
      destruct (recursiveScan cfg p root files s) as [files1 s1]. simpl in Hk.
      eapply scan_keeps_trans; [exact Hk | apply IH].
Qed.

(** The scan of a small library and of a path that does not exist. *)
Example scan_inputs_example :
  scan_inputs plain [("lib"%string, Some music_tree); ("nowhere"%string, None)]
              [] (initial_state [])
  = (["lib/a.flac"; "lib/sub/c.d.flac"]%string,
     mkState 0 0
             [("Filesystem Error: Input/output error"%string, ["lib/broken"%string]);
              ("Path does not exist"%string, ["nowhere"%string])]
             [] []).
Proof. vm_compute. reflexivity. Qed.

(** * Detection and tagging together *)

Lemma detect_reads_payload_witness :
  exists orsf rate provenance,
    read_orsf 0 0 (sync_samples 0 ++ silence 40) 35 = Some orsf /\
    OriginalSampleRateDecoder orsf = Ok rate /\
    read_provenance 0 0 (sync_samples 0 ++ silence 40) 35 = Some provenance /\
    detect watermarked_stream new_identifier
    = Returns true
        (mkIdentifier
           (set_original_sample_rate rate
              (mkDecoder 44100 2 16 76 (sync_samples 0 ++ silence 40) "" 0 "" true))
           true (8 <? provenance) "").
Proof.
  apply (detect_reads_payload watermarked_stream new_identifier
           (mkDecoder 44100 2 16 76 (sync_samples 0 ++ silence 40) "" 0 "" true) 0 35).
  - vm_compute. reflexivity.
  - reflexivity.
  - vm_compute. reflexivity.
  - simpl. lia.
Defined.



(** X22. A stream whose sample rate makes sampleRate x 3 zero is reported
    as not watermarked without an error: [decode] asks for no frame, so
    nothing of the audio or of its defects is seen, and the format guard is
    not reached either. *)
Theorem detect_zero_rate (f : FlacFile) :
  init_failure f = None ->
  three_seconds (stream_format f) = 0 ->
  detect f new_identifier
  = Returns false (mkIdentifier (stream_format f) false false "").
Proof.
  intros Hinit Hzero.
  destruct (decode_init_format f Hinit) as (Hdi & Herr & Hsam).
  destruct (decode_init_ok f new_decoder Hinit) as (_ & _ & Hdec & _ & _).
  fold (stream_format f) in Hdec. simpl in Hdec.
  unfold detect, detect_body, decode. simpl decoder.
  rewrite Hdi. rewrite decode_loop_full by lia.
  simpl. rewrite Herr. simpl. rewrite Hsam. reflexivity.
Qed.

Lemma detect_zero_rate_witness :
  detect (mkFlacFile None [StreamInfo 0 1 32]
                     [Frame (sync_samples 0 ++ silence 40);
                      StreamError "FLAC__STREAM_DECODER_ERROR_STATUS_LOST_SYNC" false] "")
         new_identifier
  = Returns false (mkIdentifier (mkDecoder 0 1 32 0 [] "" 0 "" false) false false "").
Proof.
  exact (detect_zero_rate
           (mkFlacFile None [StreamInfo 0 1 32]
                       [Frame (sync_samples 0 ++ silence 40);
                        StreamError "FLAC__STREAM_DECODER_ERROR_STATUS_LOST_SYNC" false] "")
           eq_refl eq_refl).
Defined.
